(** * Space-time volume viewer: volume construction, slicing, rate input, export

    A shallow embedding of [video_to_spacetime.py] (class [SpaceTimeVisualizer])
    and the properties of its volume builder, its three slicing views, its
    playback-rate text box and its GIF export.

    Modelling conventions.
    - A decoded frame is a numpy array of shape (H, W, C) holding unsigned 8-bit
      integers; it is a nested list of [Z].  numpy arrays are rectangular, a
      nested list need not be: [is_image] singles out the lists that are arrays.
    - Python floats are modelled by exact rationals ([Q]) extended with the two
      infinities and NaN ([pyfloat]).  Arithmetic is exact: rounding to
      binary64 is modelled only where [float(text)] overflows to an infinity
      or underflows to zero.  A quotient is exact as well; where its value
      matters, the property assumes that it stays in the range of binary64
      ([fits_double]).
    - The animation timer, the decoders and the GIF writer are outside the
      model: decoded frames and the detected rate are inputs, the parameters
      of the animation are state, and the exported file is the list of images
      handed to the writer.  Of the widgets the FPS box is modelled: its text
      is state, and its [set_val] runs the submit callback again when it
      changes the text.
    - Python exceptions are values of [exn]; a computation that may raise
      returns a [result]. *)

From Stdlib Require Import ZArith QArith Qminmax Qround Qabs Lia Ascii String.
From stdpp Require Import base tactics option list strings pretty.

Set Default Proof Using "Type".

(** ** Exceptions *)

Inductive exn : Type :=
  | ValueError_no_frames      (* [raise ValueError] at the end of [_load_media] *)
  | ValueError_stack_empty    (* np.stack: need at least one array to stack *)
  | ValueError_stack_shapes   (* np.stack: all input arrays must have the same shape *)
  | ValueError_zero_size      (* min()/max() of a zero-size array *)
  | ValueError_float          (* float(text): could not convert string to float *)
  | ValueError_int_nan        (* int(nan) *)
  | OverflowError_int_inf     (* int(inf) *)
  | ZeroDivisionError         (* float division by zero *)
  | IndexError                (* index out of bounds for an axis *)
  | RecursionError.           (* maximum recursion depth exceeded *)

Inductive result (A : Type) : Type :=
  | Ok (a : A)
  | Raise (e : exn).
Arguments Ok {A} a.
Arguments Raise {A} e.

#[global] Instance result_ret : MRet result := λ A a, Ok a.
#[global] Instance result_bind : MBind result := λ A B f m,
  match m with Ok a => f a | Raise e => Raise e end.
#[global] Instance result_fmap : FMap result := λ A B f m,
  match m with Ok a => Ok (f a) | Raise e => Raise e end.

(** [o] or raise [e]. *)
Definition or_raise {A} (e : exn) (o : option A) : result A :=
  match o with Some a => Ok a | None => Raise e end.

(** Where an exception of the constructor comes from: [true] for the ones the
    program raises itself before it calls [np.stack]. *)
Definition raised_before_stack (e : exn) : bool :=
  match e with ValueError_no_frames => true | _ => false end.

(** ** Arrays *)

Abbreviation array2 A := (list (list A)) (only parsing).
Abbreviation array3 A := (list (list (list A))) (only parsing).
Abbreviation array4 A := (list (list (list (list A)))) (only parsing).

Abbreviation Frame := (array3 Z) (only parsing).   (* a decoded frame, (H, W, C), uint8 *)
Abbreviation image := (array3 Q) (only parsing).   (* a float image, (rows, columns, C) *)

(** Elementwise operations. *)
Definition map2 {A B} (g : A → B) (a : array2 A) : array2 B :=
  fmap (M := list) (fmap (M := list) g) a.
Definition map3 {A B} (g : A → B) (a : array3 A) : array3 B :=
  fmap (M := list) (map2 g) a.
Definition map4 {A B} (g : A → B) (a : array4 A) : array4 B :=
  fmap (M := list) (map3 g) a.

Section Shapes.
Context {A : Type}.

(** The [shape] attribute of a 3-d array. *)
Definition shape3 (f : array3 A) : nat * nat * nat :=
  (length f, length (default [] (head f)),
   length (default [] (head (default [] (head f))))).

(** The nested list [f] is an array of shape (h, w, c). *)
Definition has_shape3 (s : nat * nat * nat) (f : array3 A) : bool :=
  let '(h, w, c) := s in
  (length f =? h) &&
  forallb (λ row, (length row =? w) && forallb (λ px : list A, length px =? c) row) f.

Definition has_shape4 (s : nat * nat * nat * nat) (v : array4 A) : bool :=
  let '(t, h, w, c) := s in
  (length v =? t) && forallb (has_shape3 (h, w, c)) v.

(** The [shape] attribute of a 4-d array. *)
Definition shape4 (v : array4 A) : nat * nat * nat * nat :=
  let '(h, w, c) := shape3 (default [] (head v)) in (length v, h, w, c).
End Shapes.

Arguments shape3 {A} f : simpl never.
Arguments shape4 {A} v : simpl never.
Arguments has_shape3 {A} s f : simpl never.
Arguments has_shape4 {A} s v : simpl never.

(** A decoded frame: an array with at least one row and one column. *)
Definition is_image (f : Frame) : bool :=
  has_shape3 (shape3 f) f && (0 <? length f) && (0 <? length (default [] (head f))).

Definition shape_eqb (s1 s2 : nat * nat * nat) : bool :=
  let '(h1, w1, c1) := s1 in let '(h2, w2, c2) := s2 in
  (h1 =? h2) && (w1 =? w2) && (c1 =? c2).

(** [np.stack(frames, axis=0)]: the frames become the leading axis; numpy
    compares the [shape] of every array with the first one. *)
Definition np_stack (frames : list Frame) : result (list Frame) :=
  match frames with
  | [] => Raise ValueError_stack_empty
  | f0 :: _ =>
      if forallb (λ f, shape_eqb (shape3 f) (shape3 f0)) frames
      then Ok frames
      else Raise ValueError_stack_shapes
  end.

(** [.astype(float)] *)
Definition astype_float (v : list Frame) : array4 Q := map4 inject_Z v.

(** [a[..., c]] for the 4-d array [a]; [c] is in range wherever it is used. *)
Definition get_channel (c : nat) (v : array4 Q) : array3 Q :=
  map3 (λ px : list Q, default 0%Q (px !! c)) v.

(** [a[..., c] = ch] for [ch] of the shape of [a[..., c]], for a 3-d and a
    4-d array [a]. *)
Definition set_channel2 (c : nat) (ch : array2 Q) (a : array3 Q) : array3 Q :=
  zip_with (zip_with (λ (x : Q) (px : list Q), <[c := x]> px)) ch a.

Definition set_channel (c : nat) (ch : array3 Q) (v : array4 Q) : array4 Q :=
  zip_with (set_channel2 c) ch v.

(** The elements of a 3-d array in row-major order. *)
Definition ravel {A} (a : array3 A) : list A := concat (concat a).

(** [a.min()] and [a.max()] *)
Definition amin (l : list Q) : result Q :=
  match l with
  | [] => Raise ValueError_zero_size
  | x :: l' => Ok (foldl Qmin x l')
  end.

Definition amax (l : list Q) : result Q :=
  match l with
  | [] => Raise ValueError_zero_size
  | x :: l' => Ok (foldl Qmax x l')
  end.

Definition Qltb (x y : Q) : bool := (Qnum x * QDen y <? Qnum y * QDen x)%Z.

(** [(channel - channel_min) / (channel_max - channel_min)] *)
Definition rescale (channel_min channel_max : Q) (x : Q) : Q :=
  ((x - channel_min) / (channel_max - channel_min))%Q.

(** The body of the normalisation loop of [__init__] for channel [c]. *)
Definition normalize_channel (v : array4 Q) (c : nat) : result (array4 Q) :=
  let channel := get_channel c v in
  channel_min ← amin (ravel channel);
  channel_max ← amax (ravel channel);
  if Qltb channel_min channel_max
  then Ok (set_channel c (map3 (rescale channel_min channel_max) channel) v)
  else Ok v.

(** [for c in cs: v = body(v, c)] with exceptions. *)
Fixpoint for_each {S} (body : S → nat → result S) (cs : list nat) (v : S) : result S :=
  match cs with
  | [] => Ok v
  | c :: cs' => v' ← body v c; for_each body cs' v'
  end.

(** [for c in range(self.volume.shape[-1]): ...] *)
Definition normalize (v : array4 Q) : result (array4 Q) :=
  let '(_, _, _, channels) := shape4 v in
  for_each normalize_channel (seq 0 channels) v.

(** [_load_media] after decoding: the check on the list of decoded frames. *)
Definition load_media_check (decoded : list Frame) : result (list Frame) :=
  match decoded with
  | [] => Raise ValueError_no_frames
  | _ => Ok decoded
  end.

(** Lines 34-41 of [__init__]: stack, convert, normalise. *)
Definition build_volume (frames : list Frame) : result (array4 Q) :=
  stacked ← np_stack frames;
  normalize (astype_float stacked).

(** [_load_media] followed by the construction of the volume. *)
Definition load_volume (decoded : list Frame) : result (array4 Q) :=
  frames ← load_media_check decoded;
  build_volume frames.

(** ** Python floats and the conversions the program applies to them *)

Inductive pyfloat : Type :=
  | PFin (q : Q)
  | PInf (negative : bool)
  | PNaN.

(** [x <= b] and [x > b] for a finite bound [b]; both are false on NaN. *)
Definition py_le (x : pyfloat) (b : Q) : bool :=
  match x with PFin q => Qle_bool q b | PInf negative => negative | PNaN => false end.

Definition py_gt (x : pyfloat) (b : Q) : bool :=
  match x with PFin q => Qltb b q | PInf negative => negb negative | PNaN => false end.

(** [a / x] for a finite [a], as the exact quotient.  The quotient of two
    doubles is an infinity when it leaves the range of binary64; the exact
    quotient stands for it where [fits_double] holds, and the properties that
    depend on the value of a quotient are stated there. *)
Definition py_div (a : Q) (x : pyfloat) : result pyfloat :=
  match x with
  | PFin q => if Qeq_bool q 0 then Raise ZeroDivisionError else Ok (PFin (a / q))
  | PInf _ => Ok (PFin 0)
  | PNaN => Ok PNaN
  end.

(** Truncation toward zero. *)
Definition Qtrunc (q : Q) : Z := Z.quot (Qnum q) (QDen q).

(** [int(x)] *)
Definition py_int (x : pyfloat) : result Z :=
  match x with
  | PFin q => Ok (Qtrunc q)
  | PInf _ => Raise OverflowError_int_inf
  | PNaN => Raise ValueError_int_nan
  end.

(** [str(n)] for an [int]. *)
Definition py_str (n : Z) : string := pretty n.

(** *** [float(text)] on ASCII text *)

Definition Py_ISSPACE (a : ascii) : bool :=
  let n := nat_of_ascii a in ((9 <=? n) && (n <=? 13)) || (n =? 32).

Definition Py_ISDIGIT (a : ascii) : bool :=
  let n := nat_of_ascii a in (48 <=? n) && (n <=? 57).

Definition Py_TOLOWER (a : ascii) : ascii :=
  let n := nat_of_ascii a in
  if (65 <=? n) && (n <=? 90) then ascii_of_nat (n + 32) else a.

(** Underscores are dropped; one is allowed only between two digits. *)
Fixpoint remove_underscores (prev : ascii) (s : list ascii) : option (list ascii) :=
  match s with
  | [] => if Ascii.eqb prev "_" then None else Some []
  | p :: s' =>
      if Ascii.eqb p "_" then
        if Py_ISDIGIT prev then remove_underscores p s' else None
      else if Ascii.eqb prev "_" && negb (Py_ISDIGIT p) then None
      else cons p <$> remove_underscores p s'
  end.

Fixpoint lstrip (s : list ascii) : list ascii :=
  match s with
  | a :: s' => if Py_ISSPACE a then lstrip s' else s
  | [] => []
  end.

Definition strip (s : list ascii) : list ascii := rev (lstrip (rev (lstrip s))).

(** The longest prefix of digits, and the rest. *)
Fixpoint span_digits (s : list ascii) : list ascii * list ascii :=
  match s with
  | a :: s' =>
      if Py_ISDIGIT a then let '(ds, r) := span_digits s' in (a :: ds, r) else ([], s)
  | [] => ([], [])
  end.

Definition digits_value (ds : list ascii) : Z :=
  foldl (λ acc d, 10 * acc + (Z.of_nat (nat_of_ascii d) - 48))%Z 0%Z ds.

Definition read_sign (s : list ascii) : bool * list ascii :=
  match s with
  | "-"%char :: s' => (true, s')
  | "+"%char :: s' => (false, s')
  | _ => (false, s)
  end.

(** [s] starts with [t] up to the case of letters: the rest of [s]. *)
Fixpoint case_insensitive_match (s t : list ascii) : option (list ascii) :=
  match t, s with
  | [], _ => Some s
  | b :: t', a :: s' =>
      if Ascii.eqb (Py_TOLOWER a) b then case_insensitive_match s' t' else None
  | _ :: _, [] => None
  end.

(** After the sign: [inf], [infinity] or [nan], and the rest. *)
Definition parse_inf_or_nan (negative : bool) (s : list ascii)
    : option (pyfloat * list ascii) :=
  match case_insensitive_match s (list_ascii_of_string "inf") with
  | Some r =>
      match case_insensitive_match r (list_ascii_of_string "inity") with
      | Some r' => Some (PInf negative, r')
      | None => Some (PInf negative, r)
      end
  | None =>
      match case_insensitive_match s (list_ascii_of_string "nan") with
      | Some r => Some (PNaN, r)
      | None => None
      end
  end.

(** [m * 10^e] *)
Definition scale10 (m e : Z) : Q :=
  match e with
  | Zneg p => Qmake m (10 ^ p)
  | _ => inject_Z (m * 10 ^ e)
  end.

(** After the sign: digits, an optional point and digits, with at least one
    digit, and an optional exponent, which counts only when it has digits. *)
Definition parse_decimal (s : list ascii) : option (Q * list ascii) :=
  let '(ip, r1) := span_digits s in
  let '(fp, r2) :=
    match r1 with
    | "."%char :: r => span_digits r
    | _ => ([], r1)
    end in
  match ip ++ fp with
  | [] => None
  | mantissa =>
      let '(e, r3) :=
        match r2 with
        | a :: r =>
            if Ascii.eqb (Py_TOLOWER a) "e" then
              let '(eneg, r') := read_sign r in
              match span_digits r' with
              | ([], _) => (0%Z, r2)
              | (ed, r'') => ((if eneg then - digits_value ed else digits_value ed)%Z, r'')
              end
            else (0%Z, r2)
        | [] => (0%Z, r2)
        end in
      Some (scale10 (digits_value mantissa) (e - Z.of_nat (length fp)), r3)
  end.

(** Rounding to binary64, kept only where it leaves the finite non-zero
    numbers: at most half the least subnormal gives zero, at least the largest
    double plus half an ulp gives an infinity.  In between the value stays
    exact. *)
Definition py_round (q : Q) : pyfloat :=
  if Qle_bool (Qabs q) (Qmake 1 (2 ^ 1075)) then PFin 0
  else if Qle_bool (inject_Z (2 ^ 1024 - 2 ^ 970)) (Qabs q) then PInf (Qltb q 0)
  else PFin q.

(** [q] is below the magnitude from which rounding to binary64 gives an
    infinity. *)
Definition fits_double (q : Q) : bool :=
  negb (Qle_bool (inject_Z (2 ^ 1024 - 2 ^ 970)) (Qabs q)).

Definition float_from_string (text : list ascii) : option pyfloat :=
  s ← remove_underscores "000"%char text;
  match strip s with
  | [] => None
  | s =>
      let '(negative, body) := read_sign s in
      match parse_inf_or_nan negative body with
      | Some (x, []) => Some x
      | Some (_, _ :: _) => None
      | None =>
          match parse_decimal body with
          | Some (q, []) => Some (py_round (if negative then - q else q))
          | _ => None
          end
      end
  end.

(** The text has ASCII characters only. *)
Definition is_ascii (text : string) : bool :=
  forallb (λ a, nat_of_ascii a <? 128) (list_ascii_of_string text).

(** [float(text)] for a text of ASCII characters.  Python reads the decimal
    digits and the white space of other scripts as well; the model rejects
    every text with a character outside ASCII, so it stands for [float] on
    the texts with [is_ascii] only. *)
Definition py_float (text : string) : result pyfloat :=
  or_raise ValueError_float (float_from_string (list_ascii_of_string text)).

(** [s.lower()] on ASCII text. *)
Definition py_lower (s : string) : string :=
  string_of_list_ascii (Py_TOLOWER <$> list_ascii_of_string s).

(** *** [os.path] on POSIX paths *)

(** [s.rfind(c)], [-1] when [c] does not occur. *)
Fixpoint rfind_from (i : nat) (c : ascii) (s : list ascii) (found : Z) : Z :=
  match s with
  | [] => found
  | a :: s' => rfind_from (S i) c s' (if Ascii.eqb a c then Z.of_nat i else found)
  end.

Definition rfind (c : ascii) (s : list ascii) : Z := rfind_from 0 c s (-1)%Z.

Definition basename (p : string) : string :=
  let l := list_ascii_of_string p in
  string_of_list_ascii (drop (Z.to_nat (rfind "/" l + 1)) l).

(** The extension starts at the last dot of the last component, unless only
    dots come before it in that component. *)
Definition splitext (p : string) : string * string :=
  let l := list_ascii_of_string p in
  let sepIndex := rfind "/" l in
  let dotIndex := rfind "." l in
  if (sepIndex <? dotIndex)%Z then
    let filenameIndex := Z.to_nat (sepIndex + 1) in
    let dot := Z.to_nat dotIndex in
    if existsb (λ a, negb (Ascii.eqb a ".")) (take (dot - filenameIndex) (drop filenameIndex l))
    then (string_of_list_ascii (take dot l), string_of_list_ascii (drop dot l))
    else (p, EmptyString)
  else (p, EmptyString).

Definition startswith_sep (s : string) : bool :=
  match s with String "/" _ => true | _ => false end.

(** [os.path.join(a, b)] for a non-empty [a] that does not end with a slash. *)
Definition path_join (a b : string) : string :=
  if startswith_sep b then b else a +:+ "/" +:+ b.

(** ** The visualizer *)

(** What [FuncAnimation] is created with. *)
Record animation : Type := {
  anim_frames : nat;
  anim_interval : pyfloat;
}.

Record visualizer : Type := {
  file_path : string;
  fps : pyfloat;
  interval : pyfloat;
  volume : array4 Q;
  time : nat;
  height : nat;
  width : nat;
  channels : nat;
  fps_textbox : string;      (* the text shown in the FPS box *)
  current_view : string;
  frame : nat;
  anim : option animation;
  base_name : string;
}.

Definition set_fps (x i : pyfloat) (s : visualizer) : visualizer :=
  {| file_path := file_path s; fps := x; interval := i; volume := volume s;
     time := time s; height := height s; width := width s; channels := channels s;
     fps_textbox := fps_textbox s; current_view := current_view s; frame := frame s;
     anim := anim s; base_name := base_name s |}.

(** The text shown in the FPS box replaced, by typing or by the widget. *)
Definition set_text (text : string) (s : visualizer) : visualizer :=
  {| file_path := file_path s; fps := fps s; interval := interval s; volume := volume s;
     time := time s; height := height s; width := width s; channels := channels s;
     fps_textbox := text; current_view := current_view s; frame := frame s;
     anim := anim s; base_name := base_name s |}.

Definition set_view (label : string) (n : nat) (s : visualizer) : visualizer :=
  {| file_path := file_path s; fps := fps s; interval := interval s; volume := volume s;
     time := time s; height := height s; width := width s; channels := channels s;
     fps_textbox := fps_textbox s; current_view := label; frame := n;
     anim := anim s; base_name := base_name s |}.

Definition set_frame (n : nat) (s : visualizer) : visualizer :=
  set_view (current_view s) n s.

Definition set_anim (a : option animation) (s : visualizer) : visualizer :=
  {| file_path := file_path s; fps := fps s; interval := interval s; volume := volume s;
     time := time s; height := height s; width := width s; channels := channels s;
     fps_textbox := fps_textbox s; current_view := current_view s; frame := frame s;
     anim := a; base_name := base_name s |}.

(** The rate detected for a file that is not an image: [cap_fps] is what
    [cap.get(cv2.CAP_PROP_FPS)] returns, [None] when the attempt raises. *)
Definition detect_fps (file_path : string) (cap_fps : option pyfloat) : pyfloat :=
  let ext := (splitext file_path).2 in
  if bool_decide (py_lower ext ∈ [".gif"; ".png"; ".jpg"; ".jpeg"]%string) then PFin 20
  else
    match cap_fps with
    | Some x => if py_le x 0 || py_gt x 1000 then PFin 20 else x
    | None => PFin 20
    end.

(** [__init__]: [decoded] is the sequence of frames the decoder yields for
    [file_path]. *)
Definition init (file_path : string) (decoded : list Frame)
    (cap_fps : option pyfloat) : result visualizer :=
  frames ← load_media_check decoded;
  let fps := detect_fps file_path cap_fps in
  interval ← py_div 1000 fps;
  volume ← build_volume frames;
  let '(time, height, width, channels) := shape4 volume in
  initial ← py_int fps;
  Ok {| file_path := file_path; fps := fps; interval := interval; volume := volume;
        time := time; height := height; width := width; channels := channels;
        fps_textbox := py_str initial; current_view := "X-Y-T"; frame := 0;
        anim := None; base_name := (splitext (basename file_path)).1 |}.

(** The number of frames [start_animation] plays for the current view. *)
Definition depth_range (s : visualizer) : nat :=
  if String.eqb (current_view s) "X-Y-T" then time s
  else if String.eqb (current_view s) "Y-T-X" then width s
  else height s.

Definition start_animation (s : visualizer) : visualizer :=
  set_anim (Some {| anim_frames := depth_range s; anim_interval := interval s |}) s.

Definition restart_animation (s : visualizer) : visualizer := start_animation s.

Definition dimension_changed (label : string) (s : visualizer) : visualizer :=
  start_animation (set_view label 0 (set_anim None s)).

Definition run (s : visualizer) : visualizer := start_animation s.

(** *** Slices *)

Definition zeros3 (a b c : nat) : array3 Q :=
  replicate a (replicate b (replicate c 0%Q)).

Definition zeros4 (n a b c : nat) : array4 Q := replicate n (zeros3 a b c).

(** [v[:, :, x, c]] *)
Definition index_x (v : array4 Q) (x c : nat) : result (array2 Q) :=
  let '(_, _, w, ch) := shape4 v in
  if (x <? w) && (c <? ch)
  then Ok (map2 (λ row : list (list Q), default 0%Q (row !! x ≫= (.!! c))) v)
  else Raise IndexError.

(** [v[:, y, :, c]] *)
Definition index_y (v : array4 Q) (y c : nat) : result (array2 Q) :=
  let '(_, h, _, ch) := shape4 v in
  if (y <? h) && (c <? ch)
  then Ok (fmap (M := list)
             (λ fr : array3 Q,
                fmap (M := list) (λ px : list Q, default 0%Q (px !! c))
                  (default [] (fr !! y))) v)
  else Raise IndexError.

(** [slice_data] as [update] computes it for the frame number [n]. *)
Definition slice_data (s : visualizer) (n : nat) : result image :=
  if String.eqb (current_view s) "X-Y-T" then
    or_raise IndexError (volume s !! n)
  else if String.eqb (current_view s) "Y-T-X" then
    for_each (λ slice_data c,
                a ← index_x (volume s) n c; Ok (set_channel2 c a slice_data))
      (seq 0 3) (zeros3 (time s) (height s) 3)
  else
    for_each (λ slice_data c,
                a ← index_y (volume s) n c; Ok (set_channel2 c a slice_data))
      (seq 0 3) (zeros3 (time s) (width s) 3).

(** The position of the marker plane in the unit cube. *)
Definition plane_pos (s : visualizer) (n : nat) : Q :=
  let extent := depth_range s in
  if 1 <? extent then inject_Z (Z.of_nat n) / inject_Z (Z.of_nat extent - 1) else 0.

(** [update(frame)]: the new state, the image shown and the marker position. *)
Definition update (s : visualizer) (n : nat) : result (visualizer * image * Q) :=
  let s := set_frame n s in
  shown ← slice_data s n;
  Ok (s, shown, plane_pos s n).

(** *** The playback-rate text box *)

(** [TextBox.set_val(val)] of matplotlib: nothing happens when the box shows
    [val] already; otherwise the text is replaced and the callbacks registered
    with [on_submit] run with the new text.  [__init__] registers
    [update_fps_from_textbox], so a call of [set_val] inside that handler runs
    the handler again: [on_submit] is that nested run. *)
Definition set_val (on_submit : visualizer → string → result visualizer)
    (val : string) (s : visualizer) : result visualizer :=
  if String.eqb (fps_textbox s) val then Ok s
  else on_submit (set_text val s) val.

(** The body of [update_fps_from_textbox(text)].  An exception of a nested
    run would be passed on; no nested run raises one ([nested_run_returns]). *)
Definition update_fps_with (on_submit : visualizer → string → result visualizer)
    (s : visualizer) (text : string) : result visualizer :=
  match py_float text with
  | Ok new_fps =>
      '(new_fps, s) ←
        (if py_le new_fps 0 then s ← set_val on_submit "1" s; Ok (PFin 1, s)
         else if py_gt new_fps 1000 then s ← set_val on_submit "1000" s; Ok (PFin 1000, s)
         else Ok (new_fps, s));
      interval ← py_div 1000 new_fps;
      Ok (restart_animation (set_fps new_fps interval s))
  | Raise ValueError_float =>
      n ← py_int (fps s);
      set_val on_submit (py_str n) s
  | Raise e => Raise e
  end.

(** The handler with its nested runs; [depth] is the number of nested runs
    Python has room for before it raises [RecursionError]. *)
Fixpoint on_submit (depth : nat) (s : visualizer) (text : string) : result visualizer :=
  update_fps_with
    (match depth with
     | 0 => λ _ _, Raise RecursionError
     | S depth' => on_submit depth'
     end) s text.

(** The nested runs of the handler that fit within the recursion limit of
    Python.  Two are the most that happen, and the number does not matter
    from there on ([on_submit_depth]). *)
Definition recursion_limit : nat := 100.

(** [update_fps_from_textbox(text)], run by the box when [text] is submitted:
    the box shows [text]. *)
Definition update_fps_from_textbox (s : visualizer) (text : string) : result visualizer :=
  on_submit recursion_limit (set_text text s) text.

(** The rates in effect after each of the texts submitted in turn. *)
Fixpoint submit_all (s : visualizer) (texts : list string) : result (list pyfloat) :=
  match texts with
  | [] => Ok []
  | text :: texts' =>
      s' ← update_fps_from_textbox s text;
      rates ← submit_all s' texts';
      Ok (fps s' :: rates)
  end.

(** *** Export *)

(** [.astype(np.uint8)] of a float: the fraction is dropped.  An integer
    outside [0, 255] has no unsigned 8-bit value of its own: numpy leaves the
    result to the conversion of the platform, which keeps the low eight bits
    on x86-64, and that is what the model takes.  The properties below use of
    it only that the result is a byte. *)
Definition astype_uint8 (x : Q) : Z := (Qtrunc x mod 256)%Z.

(** One value of [(data * 255).astype(np.uint8)]. *)
Definition to_pixel (v : Q) : Z := astype_uint8 (v * 255).

(** [frames] and [data] before the conversion to bytes. *)
Definition export_data (s : visualizer) : result (nat * array4 Q) :=
  if String.eqb (current_view s) "X-Y-T" then
    Ok (time s, volume s)
  else if String.eqb (current_view s) "Y-T-X" then
    let frames := width s in
    data ← for_each (λ data x,
              for_each (λ data c,
                          a ← index_x (volume s) x c;
                          Ok (alter (set_channel2 c a) x data))
                (seq 0 3) data)
            (seq 0 frames) (zeros4 frames (time s) (height s) 3);
    Ok (frames, data)
  else
    let frames := height s in
    data ← for_each (λ data y,
              for_each (λ data c,
                          a ← index_y (volume s) y c;
                          Ok (alter (set_channel2 c a) y data))
                (seq 0 3) data)
            (seq 0 frames) (zeros4 frames (time s) (width s) 3);
    Ok (frames, data).

Definition export_path (s : visualizer) : result string :=
  n ← py_int (fps s);
  let output_filename :=
    base_name s +:+ "_" +:+ py_lower (current_view s) +:+ "_" +:+ py_str n +:+ "fps.gif" in
  Ok (path_join "exports" output_filename).

Record gif : Type := {
  gif_path : string;
  gif_duration : Z;
  gif_frames : list (array3 Z);
}.

(** The body of the [try] block: the duration and the images appended to the
    writer, in order. *)
Definition export_frames (s : visualizer) : result (Z * list (array3 Z)) :=
  '(frames, data) ← export_data s;
  let data := map4 to_pixel data in
  duration ← py_div 1000 (fps s) ≫= py_int;
  written ← mapM (λ i, or_raise IndexError (data !! i)) (seq 0 frames);
  Ok (duration, written).

(** What a click on the export button leaves behind: the file written, or the
    exception that the handler caught and reported. *)
Definition export_button_clicked (s : visualizer) : result (gif + exn) :=
  output_path ← export_path s;
  match export_frames s with
  | Ok (duration, written) =>
      Ok (inl {| gif_path := output_path; gif_duration := duration; gif_frames := written |})
  | Raise e => Ok (inr e)
  end.

(** *** The marker plane of the 3-d inset *)

(** [s.split(sep)] for a separator of one character. *)
Fixpoint split_on (sep : ascii) (cur : list ascii) (s : list ascii) : list string :=
  match s with
  | [] => [string_of_list_ascii (rev cur)]
  | a :: s' =>
      if Ascii.eqb a sep then string_of_list_ascii (rev cur) :: split_on sep [] s'
      else split_on sep (a :: cur) s'
  end.

Definition py_split (sep : ascii) (s : string) : list string :=
  split_on sep [] (list_ascii_of_string s).

(** [np.meshgrid(u, v)]: both grids have a row for every element of [v] and a
    column for every element of [u]. *)
Definition meshgrid (u v : list Q) : array2 Q * array2 Q :=
  ((λ _ : Q, u) <$> v, (λ y : Q, (λ _ : Q, y) <$> u) <$> v).

(** [np.full_like(a, value)] *)
Definition full_like (a : array2 Q) (value : Q) : array2 Q := map2 (λ _, value) a.

(** The three coordinate grids handed to [plot_surface]. *)
Record surface : Type := {
  surf_X : array2 Q;
  surf_Y : array2 Q;
  surf_Z : array2 Q;
}.

Definition plot_simple_plane (axis : string) (value : Q) : surface :=
  let u := [0; 1]%Q in
  let v := [0; 1]%Q in
  let '(U, V) := meshgrid u v in
  if String.eqb axis "T" then
    {| surf_X := U; surf_Y := V; surf_Z := full_like U value |}
  else if String.eqb axis "X" then
    {| surf_X := full_like U value; surf_Y := U; surf_Z := V |}
  else
    {| surf_X := U; surf_Y := full_like U value; surf_Z := V |}.

(** The plane [update] draws for the frame number [n]: its axis is the third
    part of the view label. *)
Definition marker_plane (s : visualizer) (n : nat) : result surface :=
  axis ← or_raise IndexError (py_split "-" (current_view s) !! 2);
  Ok (plot_simple_plane axis (plane_pos s n)).

(** The tick labels [_setup_3d_axes] puts on the x, y and z axes. *)
Record ticklabels : Type := {
  xticklabels : list string;
  yticklabels : list string;
  zticklabels : list string;
}.

Definition setup_3d_axes (s : visualizer) : ticklabels :=
  {| xticklabels := ["0"; py_str (Z.of_nat (width s))];
     yticklabels := ["0"; py_str (Z.of_nat (height s))];
     zticklabels := ["0"; py_str (Z.of_nat (time s))] |}.

(** *** The entry point *)

(** [main]: the name typed by the user is looked up under [imports/], and
    the visualizer built for it is run. *)
Definition main (input : string) (decoded : list Frame) (cap_fps : option pyfloat)
    : result visualizer :=
  visualizer ← init ("imports/" +:+ input) decoded cap_fps;
  Ok (run visualizer).

(** ** Notions used to state the properties *)

(** Channel [c] of a pixel replaced by [g] of itself. *)
Definition update_pixel (c : nat) (g : Q → Q) (px : list Q) : list Q :=
  <[c := g (default 0%Q (px !! c))]> px.

(** [dst] is [src] normalised: rescaled when its maximum exceeds its minimum,
    and [src] itself otherwise. *)
Definition normalized_from (src dst : array3 Q) : Prop :=
  ∃ mn mx, amin (ravel src) = Ok mn ∧ amax (ravel src) = Ok mx ∧
           dst = if Qltb mn mx then map3 (rescale mn mx) src else src.

(** The state describes its volume: the four extents are the shape of the
    array, and none of the first three is zero. *)
Definition consistent (s : visualizer) : Prop :=
  has_shape4 (time s, height s, width s, channels s) (volume s) = true ∧
  0 < time s ∧ 0 < height s ∧ 0 < width s.

Definition at3 {A} (a : array3 A) (i j k : nat) : option A :=
  row ← a !! i; px ← row !! j; px !! k.

Definition at4 {A} (v : array4 A) (t y x c : nat) : option A :=
  fr ← v !! t; at3 fr y x c.

(** The first three channels of a pixel. *)
Definition rgb (px : list Q) : list Q :=
  [default 0%Q (px !! 0); default 0%Q (px !! 1); default 0%Q (px !! 2)].

(** The image at column [x], and the image at row [y], of a volume. *)
Definition x_slice (v : array4 Q) (x : nat) : image :=
  map2 (λ row : list (list Q), rgb (default [] (row !! x))) v.

Definition y_slice (v : array4 Q) (y : nat) : image :=
  (λ fr : array3 Q, rgb <$> default [] (fr !! y)) <$> v.

(** [s'] holds the media of [s]: the same file, base name, volume and
    extents. *)
Definition same_media (s s' : visualizer) : Prop :=
  file_path s' = file_path s ∧ base_name s' = base_name s ∧
  volume s' = volume s ∧
  (time s', height s', width s', channels s')
    = (time s, height s, width s, channels s).

(** The labels of the radio buttons. *)
Definition radio_labels : list string := ["X-Y-T"; "Y-T-X"; "T-X-Y"]%string.

(** ** A small clip

    Two frames of two rows and two columns; the green channel is the
    constant 5. *)
Definition ex_frames : list Frame :=
  [ [[ [0;  5; 7]; [10; 5; 7] ]; [ [20; 5; 9]; [30; 5; 7] ]];
    [[ [40; 5; 7]; [10; 5; 8] ]; [ [20; 5; 7]; [30; 5; 7] ]] ]%Z.

(** The visualizer of the clip, played at 23.7 frames per second, in the
    view [label]. *)
Definition ex_visualizer (label : string) : visualizer :=
  {| file_path := "imports/clip.mp4"; fps := PFin 23.7; interval := PFin (1000 / 23.7);
     volume := match build_volume ex_frames with Ok v => v | Raise _ => [] end;
     time := 2; height := 2; width := 2; channels := 3;
     fps_textbox := "23"; current_view := label; frame := 0;
     anim := None; base_name := "clip" |}.


(** * Properties *)

(** ** Tactics *)

(** Read [l !! i] for an index within the length of [l]: the element is
    named [x], the equation [H]; the other case is closed by arithmetic. *)
Ltac in_range l i x H :=
  destruct (l !! i) as [x|] eqn:H; [|apply lookup_ge_None in H; lia].

(** ** The exception monad *)

Lemma bind_Ok {A B} (f : A → result B) (m : result A) (b : B) :
  m ≫= f = Ok b ↔ ∃ a, m = Ok a ∧ f a = Ok b.
Proof.
  destruct m as [a|e]; simpl; split.
  - intros H. by exists a.
  - by intros (a' & [= <-] & H).
  - intros H. discriminate H.
  - intros (a' & H & _). discriminate H.
Qed.

(** ** Shapes *)

Section ShapeFacts.
Context {A : Type}.
Implicit Types (f : array3 A) (v : array4 A).

Lemma has_shape3_spec h w c f :
  has_shape3 (h, w, c) f = true ↔
  length f = h ∧
  Forall (λ row, length row = w ∧ Forall (λ px : list A, length px = c) row) f.
Proof.
  unfold has_shape3. rewrite andb_true_iff, Nat.eqb_eq, forallb_forall, Forall_forall.
  split; intros [Hl Hr]; split; try done; intros row Hin.
  - apply list_elem_of_In, Hr in Hin.
    apply andb_true_iff in Hin as [Hw Hc]. apply Nat.eqb_eq in Hw.
    split; [done|]. apply Forall_forall. intros px Hpx.
    rewrite forallb_forall in Hc. apply Nat.eqb_eq, Hc. by apply list_elem_of_In.
  - apply list_elem_of_In, Hr in Hin as [Hw Hc].
    apply andb_true_iff. rewrite Nat.eqb_eq. split; [done|].
    apply forallb_forall. intros px Hpx. apply Nat.eqb_eq.
    rewrite Forall_forall in Hc. by apply Hc, list_elem_of_In.
Qed.

Lemma has_shape4_spec t h w c v :
  has_shape4 (t, h, w, c) v = true ↔
  length v = t ∧ Forall (λ f, has_shape3 (h, w, c) f = true) v.
Proof.
  unfold has_shape4. rewrite andb_true_iff, Nat.eqb_eq, forallb_forall, Forall_forall.
  split; intros [Hl Hr]; split; try done; intros f Hin.
  - by apply Hr, list_elem_of_In.
  - by apply Hr, list_elem_of_In.
Qed.

(** The shape read off the heads is the shape of an array that is not empty. *)
Lemma shape3_of_has_shape3 h w c f :
  has_shape3 (h, w, c) f = true → 0 < h → 0 < w → shape3 f = (h, w, c).
Proof.
  intros [Hl Hr]%has_shape3_spec Hh Hw. unfold shape3.
  destruct f as [|row f]; simpl in *; [lia|].
  apply Forall_cons in Hr as [[Hrow Hpx] _].
  destruct row as [|px row]; simpl in *; [lia|].
  apply Forall_cons in Hpx as [Hpx _]. by rewrite Hl, Hrow, Hpx.
Qed.

Lemma shape4_of_has_shape4 t h w c v :
  has_shape4 (t, h, w, c) v = true → 0 < t → 0 < h → 0 < w →
  shape4 v = (t, h, w, c).
Proof.
  intros [Hl Hr]%has_shape4_spec Ht Hh Hw.
  destruct v as [|f v]; simpl in *; [lia|].
  apply Forall_cons in Hr as [Hf _].
  unfold shape4. change (default [] (head (f :: v))) with f.
  rewrite (shape3_of_has_shape3 h w c f) by done. simpl. by rewrite Hl.
Qed.

(** Reading an array inside its shape. *)
Lemma has_shape3_lookup h w c f i j k :
  has_shape3 (h, w, c) f = true → i < h → j < w → k < c →
  ∃ row px x, f !! i = Some row ∧ row !! j = Some px ∧ px !! k = Some x ∧
              length row = w ∧ length px = c.
Proof.
  intros [Hl Hr]%has_shape3_spec Hi Hj Hk.
  in_range f i row Hrow.
  pose proof (Forall_lookup_1 _ _ _ _ Hr Hrow) as [Hw Hpx].
  in_range row j px Hp.
  pose proof (Forall_lookup_1 _ _ _ _ Hpx Hp) as Hc. simpl in Hc.
  in_range px k x Hx.
  by exists row, px, x.
Qed.
End ShapeFacts.

Lemma shape_eqb_eq s1 s2 : shape_eqb s1 s2 = true ↔ s1 = s2.
Proof.
  destruct s1 as [[h1 w1] c1], s2 as [[h2 w2] c2]. unfold shape_eqb.
  rewrite !andb_true_iff, !Nat.eqb_eq. split.
  - by intros [[-> ->] ->].
  - by intros [= -> -> ->].
Qed.

(** ** Channels of a volume *)

Lemma zip_with_fmap_diag {A B C} (f : B → A → C) (g : A → B) (l : list A) :
  zip_with f (g <$> l) l = (λ x, f (g x) x) <$> l.
Proof. induction l as [|x l IH]; [done|]. simpl. f_equal. exact IH. Qed.

Lemma concat_fmap {A B} (g : A → B) (ll : list (list A)) :
  concat (fmap (M := list) g <$> ll) = g <$> concat ll.
Proof.
  induction ll as [|l ll IH]; [done|].
  simpl. rewrite fmap_app. f_equal. exact IH.
Qed.

Lemma ravel_map3 {A B} (g : A → B) (a : array3 A) :
  ravel (map3 g a) = g <$> ravel a.
Proof. unfold ravel, map3, map2. by rewrite !concat_fmap. Qed.

Lemma set_channel_map3 c g v :
  set_channel c (map3 g (get_channel c v)) v = map3 (update_pixel c g) v.
Proof.
  unfold set_channel, get_channel, map3.
  rewrite <- list_fmap_compose, zip_with_fmap_diag.
  apply list_fmap_ext. intros _ f _. simpl.
  unfold set_channel2, map2.
  rewrite <- list_fmap_compose, zip_with_fmap_diag.
  apply list_fmap_ext. intros _ row _. simpl.
  rewrite <- list_fmap_compose, zip_with_fmap_diag.
  by apply list_fmap_ext.
Qed.

Lemma forallb_fmap {A B} (P : B → bool) (g : A → B) (l : list A) :
  forallb P (g <$> l) = forallb (λ x, P (g x)) l.
Proof. induction l as [|x l IH]; [done|]. simpl. f_equal. exact IH. Qed.

Lemma forallb_pointwise {A} (P P' : A → bool) (l : list A) :
  (∀ x, P x = P' x) → forallb P l = forallb P' l.
Proof. intros HP. induction l as [|x l IH]; [done|]. simpl. by rewrite IH, HP. Qed.

Lemma has_shape3_map3 {A B} (g : list A → list B) s (f : array3 A) :
  (∀ px, length (g px) = length px) →
  has_shape3 s (map2 g f) = has_shape3 s f.
Proof.
  intros Hg. destruct s as [[h w] c]. unfold has_shape3, map2.
  rewrite length_fmap, forallb_fmap. f_equal.
  apply forallb_pointwise. intros row.
  rewrite length_fmap, forallb_fmap. f_equal.
  apply forallb_pointwise. intros px. by rewrite Hg.
Qed.

Lemma has_shape4_map3 {A B} (g : list A → list B) s (v : array4 A) :
  (∀ px, length (g px) = length px) →
  has_shape4 s (map3 g v) = has_shape4 s v.
Proof.
  intros Hg. destruct s as [[[t h] w] c]. unfold has_shape4, map3.
  rewrite length_fmap, forallb_fmap. f_equal.
  apply forallb_pointwise. intros f. by apply has_shape3_map3.
Qed.

Lemma length_update_pixel c g px : length (update_pixel c g px) = length px.
Proof. apply length_insert. Qed.

Lemma shape4_map3 {A B} (g : list A → list B) (v : array4 A) :
  (∀ px, length (g px) = length px) → shape4 (map3 g v) = shape4 v.
Proof.
  intros Hg. unfold shape4, shape3, map3, map2.
  rewrite length_fmap.
  destruct v as [|[|[|px row] f] v]; simpl; rewrite ?Hg;
    repeat f_equal; apply length_fmap.
Qed.

Lemma get_channel_update_ne c c' g v :
  c ≠ c' → get_channel c' (map3 (update_pixel c g) v) = get_channel c' v.
Proof.
  intros Hne. unfold get_channel, map3, map2.
  rewrite <- list_fmap_compose. apply list_fmap_ext. intros _ f _. simpl.
  rewrite <- list_fmap_compose. apply list_fmap_ext. intros _ row _. simpl.
  rewrite <- list_fmap_compose. apply list_fmap_ext. intros _ px _. simpl.
  unfold update_pixel. by rewrite list_lookup_insert_ne.
Qed.

Lemma get_channel_update_eq t h w ch c g v :
  has_shape4 (t, h, w, ch) v = true → c < ch →
  get_channel c (map3 (update_pixel c g) v) = map3 g (get_channel c v).
Proof.
  intros [_ Hv]%has_shape4_spec Hc. unfold get_channel, map3, map2.
  rewrite <- !list_fmap_compose. apply Forall_fmap_ext_1.
  eapply Forall_impl; [exact Hv|]. intros f [_ Hf]%has_shape3_spec. simpl.
  rewrite <- !list_fmap_compose. apply Forall_fmap_ext_1.
  eapply Forall_impl; [exact Hf|]. intros row [_ Hrow]. simpl.
  rewrite <- !list_fmap_compose. apply Forall_fmap_ext_1.
  eapply Forall_impl; [exact Hrow|]. intros px Hpx. simpl in Hpx |- *.
  unfold update_pixel. rewrite list_lookup_insert_eq by lia. done.
Qed.

(** ** Minimum and maximum *)

Lemma Qltb_lt x y : Qltb x y = true ↔ (x < y)%Q.
Proof. unfold Qltb, Qlt. apply Z.ltb_lt. Qed.

Lemma Qltb_ge x y : Qltb x y = false ↔ (y <= x)%Q.
Proof. unfold Qltb, Qle. apply Z.ltb_ge. Qed.

Lemma Qmin_cases x y : Qmin x y = x ∨ Qmin x y = y.
Proof. unfold Qmin, GenericMinMax.gmin. destruct (x ?= y)%Q; auto. Qed.

Lemma Qmax_cases x y : Qmax x y = x ∨ Qmax x y = y.
Proof. unfold Qmax, GenericMinMax.gmax. destruct (x ?= y)%Q; auto. Qed.

Lemma foldl_Qmin_spec l x :
  (foldl Qmin x l = x ∨ foldl Qmin x l ∈ l) ∧
  (foldl Qmin x l <= x)%Q ∧ Forall (Qle (foldl Qmin x l)) l.
Proof.
  revert x. induction l as [|y l IH]; intros x; simpl.
  - split; [by left|]. split; [apply Qle_refl|constructor].
  - destruct (IH (Qmin x y)) as (Hin & Hle & Hall).
    pose proof (Q.le_min_l x y). pose proof (Q.le_min_r x y).
    split; [|split].
    + destruct Hin as [Heq|Hin]; [|right; by constructor].
      rewrite Heq. destruct (Qmin_cases x y) as [->| ->]; [by left|right; constructor].
    + eapply Qle_trans; eauto.
    + constructor; [eapply Qle_trans; eauto|done].
Qed.

Lemma foldl_Qmax_spec l x :
  (foldl Qmax x l = x ∨ foldl Qmax x l ∈ l) ∧
  (x <= foldl Qmax x l)%Q ∧ Forall (λ y, y <= foldl Qmax x l)%Q l.
Proof.
  revert x. induction l as [|y l IH]; intros x; simpl.
  - split; [by left|]. split; [apply Qle_refl|constructor].
  - destruct (IH (Qmax x y)) as (Hin & Hle & Hall).
    pose proof (Q.le_max_l x y). pose proof (Q.le_max_r x y).
    split; [|split].
    + destruct Hin as [Heq|Hin]; [|right; by constructor].
      rewrite Heq. destruct (Qmax_cases x y) as [->| ->]; [by left|right; constructor].
    + eapply Qle_trans; eauto.
    + constructor; [eapply Qle_trans; eauto|done].
Qed.

(** The minimum is an element of the array and a lower bound of it. *)
Lemma amin_spec l m : amin l = Ok m → m ∈ l ∧ Forall (Qle m) l.
Proof.
  destruct l as [|x l]; [done|]. intros [= <-].
  destruct (foldl_Qmin_spec l x) as (Hin & Hle & Hall). split.
  - destruct Hin as [->|Hin]; by constructor.
  - by constructor.
Qed.

Lemma amax_spec l m : amax l = Ok m → m ∈ l ∧ Forall (λ y, y <= m)%Q l.
Proof.
  destruct l as [|x l]; [done|]. intros [= <-].
  destruct (foldl_Qmax_spec l x) as (Hin & Hle & Hall). split.
  - destruct Hin as [->|Hin]; by constructor.
  - by constructor.
Qed.

Lemma amin_is_Ok l : l ≠ [] → ∃ m, amin l = Ok m.
Proof. destruct l; [done|]. by eexists. Qed.

Lemma amax_is_Ok l : l ≠ [] → ∃ m, amax l = Ok m.
Proof. destruct l; [done|]. by eexists. Qed.

(** ** Rescaling *)

Lemma rescale_min mn mx : (rescale mn mx mn == 0)%Q.
Proof. unfold rescale, Qdiv. ring. Qed.

Lemma rescale_max mn mx : (mn < mx)%Q → (rescale mn mx mx == 1)%Q.
Proof.
  intros Hlt. unfold rescale. field. intros H0.
  apply (Qlt_not_eq _ _ Hlt). symmetry.
  rewrite <- (Qplus_0_l mn), <- H0. ring.
Qed.

Lemma rescale_mono mn mx x y :
  (mn < mx)%Q → (x <= y)%Q → (rescale mn mx x <= rescale mn mx y)%Q.
Proof.
  intros Hlt Hxy. unfold rescale, Qdiv.
  apply Qmult_le_compat_r.
  - apply Qplus_le_l with (z := mn). by ring_simplify.
  - apply Qlt_le_weak, Qinv_lt_0_compat.
    apply Qplus_lt_l with (z := mn). by ring_simplify.
Qed.

(** ** The normalisation loop *)

Lemma ravel_nonempty {A} t h w c (v : array4 A) :
  has_shape4 (t, h, w, c) v = true → 0 < t → 0 < h → 0 < w →
  ravel v ≠ [].
Proof.
  intros [Hl Hv]%has_shape4_spec Ht Hh Hw.
  destruct v as [|f v]; simpl in *; [lia|].
  apply Forall_cons in Hv as [[Hf Hrows]%has_shape3_spec _].
  destruct f as [|row f]; simpl in *; [lia|].
  apply Forall_cons in Hrows as [[Hrow _] _].
  destruct row as [|px row]; simpl in *; [lia|]. done.
Qed.

Lemma normalize_channel_ok t h w C v c :
  has_shape4 (t, h, w, C) v = true → 0 < t → 0 < h → 0 < w → c < C →
  ∃ v', normalize_channel v c = Ok v' ∧
        has_shape4 (t, h, w, C) v' = true ∧
        normalized_from (get_channel c v) (get_channel c v') ∧
        ∀ c', c' ≠ c → get_channel c' v' = get_channel c' v.
Proof.
  intros Hv Ht Hh Hw Hc. unfold normalize_channel.
  assert (ravel (get_channel c v) ≠ []) as Hne.
  { unfold get_channel. rewrite ravel_map3.
    pose proof (ravel_nonempty _ _ _ _ _ Hv Ht Hh Hw) as Hr.
    destruct (ravel v); [done|]. done. }
  destruct (amin_is_Ok _ Hne) as [mn Hmn], (amax_is_Ok _ Hne) as [mx Hmx].
  rewrite Hmn, Hmx. simpl.
  destruct (Qltb mn mx) eqn:Hlt.
  - eexists. split; [done|]. rewrite set_channel_map3. split; [|split].
    + rewrite has_shape4_map3; [done|]. apply length_update_pixel.
    + exists mn, mx. rewrite Hlt. split; [done|]. split; [done|].
      by eapply get_channel_update_eq.
    + intros c' Hne'. by apply get_channel_update_ne.
  - exists v. split; [done|]. split; [done|]. split; [|done].
    exists mn, mx. by rewrite Hlt.
Qed.

Lemma for_each_normalize t h w C cs v :
  has_shape4 (t, h, w, C) v = true → 0 < t → 0 < h → 0 < w →
  NoDup cs → Forall (λ c, c < C) cs →
  ∃ v', for_each normalize_channel cs v = Ok v' ∧
        has_shape4 (t, h, w, C) v' = true ∧
        (∀ c, c ∈ cs → normalized_from (get_channel c v) (get_channel c v')) ∧
        (∀ c, c ∉ cs → get_channel c v' = get_channel c v).
Proof.
  intros Hv Ht Hh Hw Hnd Hcs. revert v Hv.
  induction cs as [|c cs IH]; intros v Hv; simpl.
  - exists v. split; [done|]. split; [done|]. split; [|done].
    intros c Hc. by apply elem_of_nil in Hc.
  - apply NoDup_cons in Hnd as [Hc Hnd]. apply Forall_cons in Hcs as [HcC Hcs].
    destruct (normalize_channel_ok t h w C v c Hv Ht Hh Hw HcC)
      as (v1 & Hrun & Hv1 & Hnorm & Hother).
    destruct (IH Hnd Hcs v1 Hv1) as (v' & Hrun' & Hv' & Hin & Hout).
    exists v'. rewrite Hrun. simpl. split; [done|]. split; [done|]. split.
    + intros c' [->|Hc']%elem_of_cons.
      * by rewrite (Hout c Hc).
      * rewrite <- (Hother c') by (intros ->; done). by apply Hin.
    + intros c' [Hne Hc']%not_elem_of_cons.
      rewrite (Hout c' Hc'). by apply Hother.
Qed.

Lemma normalize_ok t h w C v :
  has_shape4 (t, h, w, C) v = true → 0 < t → 0 < h → 0 < w →
  ∃ v', normalize v = Ok v' ∧
        has_shape4 (t, h, w, C) v' = true ∧
        ∀ c, c < C → normalized_from (get_channel c v) (get_channel c v').
Proof.
  intros Hv Ht Hh Hw. unfold normalize.
  rewrite (shape4_of_has_shape4 t h w C v) by done.
  destruct (for_each_normalize t h w C (seq 0 C) v) as (v' & Hrun & Hv' & Hin & _);
    try done.
  - apply NoDup_seq.
  - apply Forall_forall. intros c Hc%elem_of_seq. lia.
  - exists v'. split; [done|]. split; [done|].
    intros c Hc. apply Hin, elem_of_seq. lia.
Qed.

(** ** Stacking *)

Lemma is_image_spec f :
  is_image f = true ↔
  has_shape3 (shape3 f) f = true ∧ 0 < length f ∧ 0 < length (default [] (head f)).
Proof. unfold is_image. rewrite !andb_true_iff, !Nat.ltb_lt. tauto. Qed.

Lemma np_stack_ok f0 rest :
  Forall (λ f, shape3 f = shape3 f0) rest → np_stack (f0 :: rest) = Ok (f0 :: rest).
Proof.
  intros Hrest. unfold np_stack.
  replace (forallb _ _) with true; [done|]. symmetry.
  apply forallb_forall. intros f [<-|Hin]; apply shape_eqb_eq; [done|].
  rewrite Forall_forall in Hrest. by apply Hrest, list_elem_of_In.
Qed.

Lemma np_stack_mismatch f0 rest :
  Exists (λ f, shape3 f ≠ shape3 f0) rest →
  np_stack (f0 :: rest) = Raise ValueError_stack_shapes.
Proof.
  intros (f & Hin & Hne)%Exists_exists. unfold np_stack.
  replace (forallb _ _) with false; [done|]. symmetry.
  apply not_true_is_false. intros Hall. apply Hne.
  rewrite forallb_forall in Hall. apply shape_eqb_eq, Hall.
  right. by apply list_elem_of_In.
Qed.

Lemma stacked_shape f0 rest :
  Forall (λ f, is_image f = true) (f0 :: rest) →
  Forall (λ f, shape3 f = shape3 f0) rest →
  ∃ h w c, shape3 f0 = (h, w, c) ∧ 0 < h ∧ 0 < w ∧
           has_shape4 (S (length rest), h, w, c) (astype_float (f0 :: rest)) = true.
Proof.
  intros Himg Hrest. destruct (shape3 f0) as [[h w] c] eqn:Hs.
  exists h, w, c. split; [done|].
  pose proof Himg as Himg'. apply Forall_cons in Himg' as [H0 _].
  apply is_image_spec in H0 as (_ & Hh & Hw).
  assert (h = length f0 ∧ w = length (default [] (head f0))) as [Eh Ew].
  { unfold shape3 in Hs. by injection Hs as <- <- _. }
  split; [lia|]. split; [lia|].
  change (astype_float (f0 :: rest))
    with (map3 (fmap (M := list) inject_Z) (f0 :: rest)).
  rewrite has_shape4_map3 by (intros; apply length_fmap).
  apply has_shape4_spec. split; [done|].
  apply Forall_forall. intros f Hf.
  assert (shape3 f = (h, w, c)) as Hsf.
  { apply elem_of_cons in Hf as [->|Hf]; [done|].
    rewrite Forall_forall in Hrest. by apply Hrest. }
  rewrite Forall_forall in Himg.
  apply Himg, is_image_spec in Hf as (Hshape & _). by rewrite <- Hsf.
Qed.

(** ** Volume construction *)

Lemma build_volume_ok f0 rest :
  Forall (λ f, is_image f = true) (f0 :: rest) →
  Forall (λ f, shape3 f = shape3 f0) rest →
  ∃ v h w c,
    shape3 f0 = (h, w, c) ∧ 0 < h ∧ 0 < w ∧
    build_volume (f0 :: rest) = Ok v ∧
    has_shape4 (S (length rest), h, w, c) v = true ∧
    ∀ ch, ch < c →
      normalized_from (get_channel ch (astype_float (f0 :: rest))) (get_channel ch v).
Proof.
  intros Himg Hrest.
  destruct (stacked_shape f0 rest Himg Hrest) as (h & w & c & Hs & Hh & Hw & Hshape).
  destruct (normalize_ok _ _ _ _ _ Hshape ltac:(lia) Hh Hw) as (v & Hrun & Hv & Hnorm).
  exists v, h, w, c. split; [done|]. split; [done|]. split; [done|].
  split; [|done]. unfold build_volume. rewrite np_stack_ok by done. exact Hrun.
Qed.

Lemma amin_amax_rescale l mn mx :
  amin l = Ok mn → amax l = Ok mx → (mn < mx)%Q →
  ∃ lo hi, amin (rescale mn mx <$> l) = Ok lo ∧ amax (rescale mn mx <$> l) = Ok hi ∧
           (lo == 0)%Q ∧ (hi == 1)%Q.
Proof.
  intros Hmn Hmx Hlt.
  destruct (amin_spec _ _ Hmn) as [Hmn_in Hmn_le].
  destruct (amax_spec _ _ Hmx) as [Hmx_in Hmx_ge].
  assert (rescale mn mx <$> l ≠ []) as Hne.
  { destruct l; [by apply elem_of_nil in Hmn_in|done]. }
  destruct (amin_is_Ok _ Hne) as [lo Hlo], (amax_is_Ok _ Hne) as [hi Hhi].
  exists lo, hi. split; [done|]. split; [done|].
  destruct (amin_spec _ _ Hlo) as [Hlo_in Hlo_le].
  destruct (amax_spec _ _ Hhi) as [Hhi_in Hhi_ge].
  apply list_elem_of_fmap in Hlo_in as (x & -> & Hx).
  apply list_elem_of_fmap in Hhi_in as (y & -> & Hy).
  rewrite Forall_forall in Hmn_le, Hmx_ge, Hlo_le, Hhi_ge.
  split.
  - rewrite <- (rescale_min mn mx). apply Qle_antisym.
    + apply Hlo_le, list_elem_of_fmap. by exists mn.
    + apply rescale_mono; [done|]. by apply Hmn_le.
  - rewrite <- (rescale_max mn mx Hlt). apply Qle_antisym.
    + apply rescale_mono; [done|]. by apply Hmx_ge.
    + apply Hhi_ge, list_elem_of_fmap. by exists mx.
Qed.

(** A channel whose maximum does not exceed its minimum is constant. *)
Lemma constant_channel l mn mx :
  amin l = Ok mn → amax l = Ok mx → ¬ (mn < mx)%Q → Forall (λ x, x == mn)%Q l.
Proof.
  intros [_ Hge]%amin_spec [_ Hle]%amax_spec Hnlt.
  apply Qnot_lt_le in Hnlt.
  rewrite Forall_forall in Hge, Hle |- *. intros x Hx.
  apply Qle_antisym; [|by apply Hge].
  eapply Qle_trans; [by apply Hle|done].
Qed.

(** C2: a channel whose global maximum does not exceed its global minimum
    keeps, value for value, what the stacked float volume holds, and the
    other channels are exactly the ones rescaled by (v - min) / (max - min). *)
Theorem normalize_rescales_only_nonconstant (f0 : Frame) (rest : list Frame) :
  Forall (λ f, is_image f = true) (f0 :: rest) →
  Forall (λ f, shape3 f = shape3 f0) rest →
  ∃ v, build_volume (f0 :: rest) = Ok v ∧
    ∀ c, c < (shape3 f0).2 →
      let src := get_channel c (astype_float (f0 :: rest)) in
      ∃ mn mx, amin (ravel src) = Ok mn ∧ amax (ravel src) = Ok mx ∧
        ((mn < mx)%Q →
           get_channel c v = map3 (λ x, (x - mn) / (mx - mn))%Q src) ∧
        (¬ (mn < mx)%Q → get_channel c v = src).
Proof.
  intros Himg Hrest.
  destruct (build_volume_ok f0 rest Himg Hrest)
    as (v & h & w & C & Hs & _ & _ & Hrun & _ & Hnorm).
  exists v. split; [done|]. rewrite Hs. simpl. intros c Hc.
  destruct (Hnorm c Hc) as (mn & mx & Hmn & Hmx & Hdst).
  exists mn, mx. split; [done|]. split; [done|]. rewrite Hdst. split.
  - intros Hlt%Qltb_lt. by rewrite Hlt.
  - intros Hnlt. destruct (Qltb mn mx) eqn:Hlt; [|done].
    by apply Qltb_lt in Hlt.
Qed.

Lemma normalize_rescales_only_nonconstant_witness :
  Forall (λ f, is_image f = true) ex_frames ∧
  ∃ v, build_volume ex_frames = Ok v ∧
    ∀ c, c < 3 →
      let src := get_channel c (astype_float ex_frames) in
      ∃ mn mx, amin (ravel src) = Ok mn ∧ amax (ravel src) = Ok mx ∧
        ((mn < mx)%Q →
           get_channel c v = map3 (λ x, (x - mn) / (mx - mn))%Q src) ∧
        (¬ (mn < mx)%Q → get_channel c v = src).
Proof.
  split.
  - repeat constructor.
  - apply (normalize_rescales_only_nonconstant
             [[[0; 5; 7]; [10; 5; 7]]; [[20; 5; 9]; [30; 5; 7]]]
             [[[[40; 5; 7]; [10; 5; 8]]; [[20; 5; 7]; [30; 5; 7]]]])%Z.
    + repeat constructor.
    + repeat constructor.
Defined.

(** C1, as amended: after construction every channel whose source is not
    constant has minimum 0 and maximum 1 over all (t, y, x); a channel whose
    source is constant is unchanged, so all its values equal the source
    constant. *)
Theorem normalized_channel_range (f0 : Frame) (rest : list Frame) :
  Forall (λ f, is_image f = true) (f0 :: rest) →
  Forall (λ f, shape3 f = shape3 f0) rest →
  ∃ v, build_volume (f0 :: rest) = Ok v ∧
    ∀ c, c < (shape3 f0).2 →
      let src := get_channel c (astype_float (f0 :: rest)) in
      ∃ mn mx, amin (ravel src) = Ok mn ∧ amax (ravel src) = Ok mx ∧
        ((mn < mx)%Q →
           ∃ lo hi, amin (ravel (get_channel c v)) = Ok lo ∧
                    amax (ravel (get_channel c v)) = Ok hi ∧
                    (lo == 0)%Q ∧ (hi == 1)%Q) ∧
        (¬ (mn < mx)%Q →
           get_channel c v = src ∧
           Forall (λ x, x == mn)%Q (ravel (get_channel c v))).
Proof.
  intros Himg Hrest.
  destruct (build_volume_ok f0 rest Himg Hrest)
    as (v & h & w & C & Hs & _ & _ & Hrun & _ & Hnorm).
  exists v. split; [done|]. rewrite Hs. simpl. intros c Hc.
  destruct (Hnorm c Hc) as (mn & mx & Hmn & Hmx & Hdst).
  exists mn, mx. split; [done|]. split; [done|]. rewrite Hdst. split.
  - intros Hlt. pose proof Hlt as Hb%Qltb_lt. rewrite Hb, ravel_map3.
    by apply amin_amax_rescale.
  - intros Hnlt. destruct (Qltb mn mx) eqn:Hlt; [by apply Qltb_lt in Hlt|].
    split; [done|]. by eapply constant_channel.
Qed.

Lemma normalized_channel_range_witness :
  Forall (λ f, is_image f = true) ex_frames ∧
  ∃ v, build_volume ex_frames = Ok v ∧
    ∀ c, c < 3 →
      let src := get_channel c (astype_float ex_frames) in
      ∃ mn mx, amin (ravel src) = Ok mn ∧ amax (ravel src) = Ok mx ∧
        ((mn < mx)%Q →
           ∃ lo hi, amin (ravel (get_channel c v)) = Ok lo ∧
                    amax (ravel (get_channel c v)) = Ok hi ∧
                    (lo == 0)%Q ∧ (hi == 1)%Q) ∧
        (¬ (mn < mx)%Q →
           get_channel c v = src ∧
           Forall (λ x, x == mn)%Q (ravel (get_channel c v))).
Proof.
  split.
  - repeat constructor.
  - apply (normalized_channel_range
             [[[0; 5; 7]; [10; 5; 7]]; [[20; 5; 9]; [30; 5; 7]]]
             [[[[40; 5; 7]; [10; 5; 8]]; [[20; 5; 7]; [30; 5; 7]]]])%Z.
    + repeat constructor.
    + repeat constructor.
Defined.

(** C1 as stated fails: in [ex_frames] the green channel is the constant 5;
    the volume is built, and every value of that channel is 5, not 0. *)
Lemma constant_channel_not_zeroed :
  amin (ravel (get_channel 1 (astype_float ex_frames))) = Ok 5%Q ∧
  amax (ravel (get_channel 1 (astype_float ex_frames))) = Ok 5%Q ∧
  ∃ v, build_volume ex_frames = Ok v ∧
       Forall (λ x, x = 5%Q) (ravel (get_channel 1 v)) ∧
       ¬ Forall (λ x, x == 0)%Q (ravel (get_channel 1 v)).
Proof.
  split; [reflexivity|]. split; [reflexivity|].
  eexists. split; [vm_compute; reflexivity|]. split.
  - repeat constructor.
  - intros H. apply Forall_cons in H as [H _]. discriminate H.
Qed.

Lemma normalize_channel_raises v c e :
  normalize_channel v c = Raise e → e = ValueError_zero_size.
Proof.
  unfold normalize_channel. destruct (ravel (get_channel c v)) as [|x l]; simpl.
  - by intros [= <-].
  - destruct (Qltb _ _); discriminate.
Qed.

Lemma normalize_raises v e : normalize v = Raise e → e = ValueError_zero_size.
Proof.
  unfold normalize. destruct (shape4 v) as [[[t h] w] C].
  generalize (seq 0 C). intros cs. revert v.
  induction cs as [|c cs IH]; intros v; simpl; [done|].
  destruct (normalize_channel v c) as [v'|e'] eqn:Hc; simpl.
  - apply IH.
  - intros [= <-]. by eapply normalize_channel_raises.
Qed.

(** C8, as amended: frames of mismatched shapes make the construction fail
    with the exception that [np.stack] itself raises; no volume is produced.
    The only exception raised before stacking is the one for an empty
    sequence of frames. *)
Theorem mismatched_frames_fail_in_stack (f0 : Frame) (rest : list Frame) :
  Exists (λ f, shape3 f ≠ shape3 f0) rest →
  load_volume (f0 :: rest) = Raise ValueError_stack_shapes ∧
  ∀ decoded e, load_volume decoded = Raise e →
               raised_before_stack e = true → decoded = [].
Proof.
  intros Hbad. split.
  - unfold load_volume. simpl. unfold build_volume.
    by rewrite np_stack_mismatch.
  - intros [|f fs] e; [done|]. unfold load_volume. simpl. unfold build_volume.
    intros Hrun Hbefore. destruct e; try discriminate Hbefore.
    destruct (np_stack (f :: fs)) as [st|e'] eqn:Hst; simpl in Hrun.
    + apply normalize_raises in Hrun. discriminate Hrun.
    + unfold np_stack in Hst. destruct (forallb _ _); congruence.
Qed.

Lemma mismatched_frames_fail_in_stack_witness :
  load_volume [ [[ [1; 2; 3] ]]; [[ [1; 2; 3]; [4; 5; 6] ]] ]%Z
    = Raise ValueError_stack_shapes ∧
  ∀ decoded e, load_volume decoded = Raise e →
               raised_before_stack e = true → decoded = [].
Proof.
  apply (mismatched_frames_fail_in_stack [[ [1; 2; 3] ]] [ [[ [1; 2; 3]; [4; 5; 6] ]] ])%Z.
  apply Exists_cons_hd. intros H. discriminate H.
Defined.

(** C8 as stated fails: two frames that are arrays of different widths are
    rejected by [np.stack], not by a check made before it. *)
Lemma mismatch_not_validated_before_stack :
  Forall (λ f, is_image f = true) [ [[ [1; 2; 3] ]]; [[ [1; 2; 3]; [4; 5; 6] ]] ]%Z ∧
  shape3 [[ [1; 2; 3] ]]%Z ≠ shape3 [[ [1; 2; 3]; [4; 5; 6] ]]%Z ∧
  ∃ e, load_volume [ [[ [1; 2; 3] ]]; [[ [1; 2; 3]; [4; 5; 6] ]] ]%Z = Raise e ∧
       raised_before_stack e = false.
Proof.
  split; [repeat constructor|]. split; [intros H; discriminate H|].
  by exists ValueError_stack_shapes.
Qed.

(** ** Slices *)

Lemma zip_with_fmap_both {A B C D} (f : B → C → D) (g : A → B) (k : A → C)
    (l : list A) :
  zip_with f (g <$> l) (k <$> l) = (λ x, f (g x) (k x)) <$> l.
Proof. induction l as [|x l IH]; [done|]. simpl. f_equal. exact IH. Qed.

Lemma replicate_fmap {A B} (x : B) (l : list A) n :
  length l = n → replicate n x = (λ _, x) <$> l.
Proof.
  intros <-. induction l as [|y l IH]; [done|]. simpl. f_equal. exact IH.
Qed.

Lemma consistent_shape4 s :
  consistent s → shape4 (volume s) = (time s, height s, width s, channels s).
Proof. intros (Hv & Ht & Hh & Hw). by apply shape4_of_has_shape4. Qed.

Lemma consistent_frames s :
  consistent s →
  length (volume s) = time s ∧
  Forall (λ fr : array3 Q, length fr = height s ∧
            Forall (λ row : list (list Q), length row = width s ∧
                      Forall (λ px : list Q, length px = channels s) row) fr)
    (volume s).
Proof.
  intros ([Hl Hv]%has_shape4_spec & _). split; [done|].
  eapply Forall_impl; [exact Hv|]. intros fr Hfr. by apply has_shape3_spec.
Qed.

Lemma index_x_ok s x c :
  consistent s → x < width s → c < channels s →
  index_x (volume s) x c
  = Ok (map2 (λ row : list (list Q), default 0%Q (default [] (row !! x) !! c))
          (volume s)).
Proof.
  intros Hs Hx Hc. unfold index_x. rewrite (consistent_shape4 s Hs).
  replace (x <? width s) with true by (symmetry; by apply Nat.ltb_lt).
  replace (c <? channels s) with true by (symmetry; by apply Nat.ltb_lt).
  simpl. f_equal. unfold map2.
  apply list_fmap_ext. intros _ fr _. apply list_fmap_ext. intros _ row _.
  by destruct (row !! x).
Qed.

Lemma index_y_ok s y c :
  consistent s → y < height s → c < channels s →
  index_y (volume s) y c
  = Ok ((λ fr : array3 Q,
           (λ px : list Q, default 0%Q (px !! c)) <$> default [] (fr !! y))
          <$> volume s).
Proof.
  intros Hs Hy Hc. unfold index_y. rewrite (consistent_shape4 s Hs).
  replace (y <? height s) with true by (symmetry; by apply Nat.ltb_lt).
  replace (c <? channels s) with true by (symmetry; by apply Nat.ltb_lt).
  done.
Qed.

Lemma zeros3_x s :
  consistent s →
  zeros3 (time s) (height s) 3
  = map2 (λ _ : list (list Q), [0; 0; 0]%Q) (volume s).
Proof.
  intros [Hl Hv]%consistent_frames. unfold zeros3, map2.
  rewrite (replicate_fmap _ (volume s)) by done.
  apply Forall_fmap_ext_1. eapply Forall_impl; [exact Hv|].
  intros fr [Hfr _]. simpl. by apply replicate_fmap.
Qed.

Lemma zeros3_y s y :
  consistent s → y < height s →
  zeros3 (time s) (width s) 3
  = (λ fr : array3 Q, (λ _ : list Q, [0; 0; 0]%Q) <$> default [] (fr !! y))
      <$> volume s.
Proof.
  intros [Hl Hv]%consistent_frames Hy. unfold zeros3.
  rewrite (replicate_fmap _ (volume s)) by done.
  apply Forall_fmap_ext_1. eapply Forall_impl; [exact Hv|].
  intros fr [Hfr Hrows]. simpl. apply replicate_fmap.
  in_range fr y row Hrow.
  by destruct (Forall_lookup_1 _ _ _ _ Hrows Hrow).
Qed.

Lemma set_channel2_x c (g k : list (list Q) → _) (v : array4 Q) :
  set_channel2 c (map2 g v) (map2 k v) = map2 (λ row, <[c := g row]> (k row)) v.
Proof.
  unfold set_channel2, map2. rewrite zip_with_fmap_both.
  apply list_fmap_ext. intros _ fr _. apply zip_with_fmap_both.
Qed.

Lemma set_channel2_y c (g : list Q → Q) (k : list Q → list Q)
    (sel : array3 Q → list (list Q)) (v : array4 Q) :
  set_channel2 c ((λ fr, g <$> sel fr) <$> v) ((λ fr, k <$> sel fr) <$> v)
  = (λ fr, (λ px, <[c := g px]> (k px)) <$> sel fr) <$> v.
Proof.
  unfold set_channel2. rewrite zip_with_fmap_both.
  apply list_fmap_ext. intros _ fr _. apply zip_with_fmap_both.
Qed.

(** The loop over the three channels that fills an x-slice. *)
Lemma x_slice_loop s x :
  consistent s → 3 ≤ channels s → x < width s →
  for_each (λ slice_data c,
              a ← index_x (volume s) x c; Ok (set_channel2 c a slice_data))
    (seq 0 3) (zeros3 (time s) (height s) 3)
  = Ok (x_slice (volume s) x).
Proof.
  intros Hs Hc Hx. rewrite (zeros3_x s Hs). simpl.
  rewrite !(index_x_ok s) by (done || lia). simpl.
  rewrite !set_channel2_x. done.
Qed.

Lemma y_slice_loop s y :
  consistent s → 3 ≤ channels s → y < height s →
  for_each (λ slice_data c,
              a ← index_y (volume s) y c; Ok (set_channel2 c a slice_data))
    (seq 0 3) (zeros3 (time s) (width s) 3)
  = Ok (y_slice (volume s) y).
Proof.
  intros Hs Hc Hy. rewrite (zeros3_y s y Hs Hy). simpl.
  rewrite !(index_y_ok s) by (done || lia). simpl.
  rewrite !(set_channel2_y _ _ _ (λ fr, default [] (fr !! y))). done.
Qed.

Lemma rgb_lookup px c q : c < 3 → px !! c = Some q → rgb px !! c = Some q.
Proof.
  intros Hc Hq. unfold rgb.
  destruct c as [|[|[|c]]]; [| | |lia]; simpl; by rewrite Hq.
Qed.

Lemma volume_lookup s t y x c :
  consistent s → t < time s → y < height s → x < width s → c < channels s →
  ∃ fr row px q,
    volume s !! t = Some fr ∧ fr !! y = Some row ∧ row !! x = Some px ∧
    px !! c = Some q ∧ length fr = height s ∧ length row = width s.
Proof.
  intros ([Hl Hv]%has_shape4_spec & _) Ht Hy Hx Hc.
  in_range (volume s) t fr Hfr.
  pose proof (Forall_lookup_1 _ _ _ _ Hv Hfr) as Hshape. simpl in Hshape.
  destruct (has_shape3_lookup _ _ _ fr y x c Hshape Hy Hx Hc)
    as (row & px & q & Hrow & Hpx & Hq & Hw & _).
  apply has_shape3_spec in Hshape as [Hh _].
  by exists fr, row, px, q.
Qed.

Lemma x_slice_spec s x :
  consistent s → 3 ≤ channels s → x < width s →
  has_shape3 (time s, height s, 3) (x_slice (volume s) x) = true ∧
  ∀ t y c, t < time s → y < height s → c < 3 →
    ∃ q, at3 (x_slice (volume s) x) t y c = Some q ∧
         at4 (volume s) t y x c = Some q.
Proof.
  intros Hs Hch Hx. split.
  - destruct (consistent_frames s Hs) as [Hl Hv].
    apply has_shape3_spec. unfold x_slice, map2. rewrite length_fmap.
    split; [done|]. apply Forall_fmap.
    eapply Forall_impl; [exact Hv|]. intros fr [Hfr _]. simpl.
    rewrite length_fmap. split; [done|]. apply Forall_fmap.
    apply Forall_forall. intros row _. done.
  - intros t y c Ht Hy Hc.
    destruct (volume_lookup s t y x c Hs Ht Hy Hx ltac:(lia))
      as (fr & row & px & q & Hfr & Hrow & Hpx & Hq & _).
    exists q. unfold at4, at3, x_slice, map2.
    rewrite list_lookup_fmap, Hfr. simpl.
    rewrite list_lookup_fmap, Hrow. simpl. rewrite Hpx. simpl.
    split; [|done]. by apply rgb_lookup.
Qed.

Lemma y_slice_spec s y :
  consistent s → 3 ≤ channels s → y < height s →
  has_shape3 (time s, width s, 3) (y_slice (volume s) y) = true ∧
  ∀ t x c, t < time s → x < width s → c < 3 →
    ∃ q, at3 (y_slice (volume s) y) t x c = Some q ∧
         at4 (volume s) t y x c = Some q.
Proof.
  intros Hs Hch Hy. split.
  - destruct (consistent_frames s Hs) as [Hl Hv].
    apply has_shape3_spec. unfold y_slice. rewrite length_fmap.
    split; [done|]. apply Forall_fmap.
    eapply Forall_impl; [exact Hv|]. intros fr [Hfr Hrows]. simpl.
    rewrite length_fmap.
    in_range fr y row Hrow.
    destruct (Forall_lookup_1 _ _ _ _ Hrows Hrow) as [Hw _]. simpl.
    split; [done|]. apply Forall_fmap.
    apply Forall_forall. intros px _. done.
  - intros t x c Ht Hx Hc.
    destruct (volume_lookup s t y x c Hs Ht Hy Hx ltac:(lia))
      as (fr & row & px & q & Hfr & Hrow & Hpx & Hq & _).
    exists q. unfold at4, at3, y_slice.
    rewrite list_lookup_fmap, Hfr. simpl. rewrite Hrow. simpl.
    rewrite list_lookup_fmap, Hpx. simpl.
    split; [|done]. by apply rgb_lookup.
Qed.

(** C3: in the X-Y-T view the animation runs over exactly T frame numbers,
    and for each t below T the slice shown is the frame [volume[t]] itself;
    a frame number from T on is out of range. *)
Theorem time_depth_view_shows_frames (s : visualizer) :
  consistent s → current_view s = "X-Y-T"%string →
  depth_range s = time s ∧
  anim_frames <$> anim (start_animation s) = Some (time s) ∧
  (∀ t, t < time s →
     ∃ img, volume s !! t = Some img ∧ slice_data s t = Ok img ∧
            update s t = Ok (set_frame t s, img, plane_pos (set_frame t s) t)) ∧
  (∀ t, time s ≤ t → slice_data s t = Raise IndexError).
Proof.
  intros Hs Hview.
  assert (depth_range s = time s) as Hd.
  { unfold depth_range. by rewrite Hview. }
  split; [done|]. split; [simpl; by rewrite Hd|].
  destruct (consistent_frames s Hs) as [Hl _]. split.
  - intros t Ht.
    in_range (volume s) t img Himg.
    exists img. split; [done|].
    assert (slice_data s t = Ok img) as Hslice.
    { unfold slice_data. by rewrite Hview, Himg. }
    split; [done|]. unfold update.
    change (slice_data (set_frame t s) t) with (slice_data s t).
    by rewrite Hslice.
  - intros t Ht. unfold slice_data. rewrite Hview. simpl.
    by rewrite (proj2 (lookup_ge_None (volume s) t)) by lia.
Qed.

(** C4: in the Y-T-X view the animation runs over exactly W columns, and for
    an RGB volume the image shown for column x has shape (T, H, 3) and holds
    [volume[t, y, x, c]] at [t, y, c]. *)
Theorem x_depth_view_shows_columns (s : visualizer) :
  consistent s → channels s = 3 → current_view s = "Y-T-X"%string →
  depth_range s = width s ∧
  anim_frames <$> anim (start_animation s) = Some (width s) ∧
  (∀ x, x < width s →
     ∃ S, slice_data s x = Ok S ∧
          update s x = Ok (set_frame x s, S, plane_pos (set_frame x s) x) ∧
          has_shape3 (time s, height s, 3) S = true ∧
          ∀ t y c, t < time s → y < height s → c < 3 →
            ∃ q, at3 S t y c = Some q ∧ at4 (volume s) t y x c = Some q) ∧
  (∀ x, width s ≤ x → slice_data s x = Raise IndexError).
Proof.
  intros Hs Hch Hview.
  assert (depth_range s = width s) as Hd.
  { unfold depth_range. by rewrite Hview. }
  split; [done|]. split; [simpl; by rewrite Hd|]. split.
  - intros x Hx. exists (x_slice (volume s) x).
    assert (slice_data s x = Ok (x_slice (volume s) x)) as Hslice.
    { unfold slice_data. rewrite Hview. simpl.
      apply (x_slice_loop s x); [done|lia|done]. }
    split; [done|]. split.
    + unfold update.
      change (slice_data (set_frame x s) x) with (slice_data s x).
      by rewrite Hslice.
    + apply x_slice_spec; [done|lia|done].
  - intros x Hx. unfold slice_data. rewrite Hview. simpl.
    unfold index_x. rewrite (consistent_shape4 s Hs).
    by replace (x <? width s) with false by (symmetry; apply Nat.ltb_ge; lia).
Qed.

(** C5: in the T-X-Y view the animation runs over exactly H rows, and for an
    RGB volume the image shown for row y has shape (T, W, 3) and holds
    [volume[t, y, x, c]] at [t, x, c]. *)
Theorem y_depth_view_shows_rows (s : visualizer) :
  consistent s → channels s = 3 → current_view s = "T-X-Y"%string →
  depth_range s = height s ∧
  anim_frames <$> anim (start_animation s) = Some (height s) ∧
  (∀ y, y < height s →
     ∃ S, slice_data s y = Ok S ∧
          update s y = Ok (set_frame y s, S, plane_pos (set_frame y s) y) ∧
          has_shape3 (time s, width s, 3) S = true ∧
          ∀ t x c, t < time s → x < width s → c < 3 →
            ∃ q, at3 S t x c = Some q ∧ at4 (volume s) t y x c = Some q) ∧
  (∀ y, height s ≤ y → slice_data s y = Raise IndexError).
Proof.
  intros Hs Hch Hview.
  assert (depth_range s = height s) as Hd.
  { unfold depth_range. by rewrite Hview. }
  split; [done|]. split; [simpl; by rewrite Hd|]. split.
  - intros y Hy. exists (y_slice (volume s) y).
    assert (slice_data s y = Ok (y_slice (volume s) y)) as Hslice.
    { unfold slice_data. rewrite Hview. simpl.
      apply (y_slice_loop s y); [done|lia|done]. }
    split; [done|]. split.
    + unfold update.
      change (slice_data (set_frame y s) y) with (slice_data s y).
      by rewrite Hslice.
    + apply y_slice_spec; [done|lia|done].
  - intros y Hy. unfold slice_data. rewrite Hview. simpl.
    unfold index_y. rewrite (consistent_shape4 s Hs).
    by replace (y <? height s) with false by (symmetry; apply Nat.ltb_ge; lia).
Qed.

(** ** Export *)

(** Filling [data[x]] channel by channel is filling one image and storing it. *)
Lemma export_inner_loop (G : nat → result (list (list Q))) cs (data : array4 Q) x img img' :
  data !! x = Some img →
  for_each (λ sl c, a ← G c; Ok (set_channel2 c a sl)) cs img = Ok img' →
  for_each (λ data c, a ← G c; Ok (alter (set_channel2 c a) x data)) cs data
  = Ok (<[x := img']> data).
Proof.
  revert data img. induction cs as [|c cs IH]; intros data img Hx; simpl.
  - intros [= <-]. by rewrite list_insert_id.
  - destruct (G c) as [a|e]; simpl; [|done]. intros Hrun.
    rewrite (IH _ (set_channel2 c a img)); [|by rewrite list_lookup_alter_eq, Hx|done].
    f_equal. apply list_eq. intros i.
    rewrite !list_lookup_insert, length_alter.
    case_decide as Hi; [done|]. rewrite list_lookup_alter.
    case_decide as Hxi; [|done]. subst i.
    destruct Hi. split; [done|]. by eapply lookup_lt_Some.
Qed.

Lemma export_outer_loop (slice : nat → image) (G : nat → nat → result (list (list Q)))
    (z : image) (cs : list nat) n :
  (∀ x, x < n →
     for_each (λ sl c, a ← G x c; Ok (set_channel2 c a sl)) cs z = Ok (slice x)) →
  for_each (λ data x,
      for_each (λ data c, a ← G x c; Ok (alter (set_channel2 c a) x data)) cs data)
    (seq 0 n) (replicate n z)
  = Ok (slice <$> seq 0 n).
Proof.
  intros Hslice.
  assert (∀ m j, j + m = n →
    for_each (λ data x,
        for_each (λ data c, a ← G x c; Ok (alter (set_channel2 c a) x data)) cs data)
      (seq j m) ((slice <$> seq 0 j) ++ replicate m z)
    = Ok (slice <$> seq 0 n)) as Hgen.
  { induction m as [|m IH]; intros j Hj.
    - simpl. rewrite app_nil_r. do 3 f_equal. lia.
    - cbn [seq for_each replicate].
      assert (length (slice <$> seq 0 j) = j) as Hlen.
      { by rewrite length_fmap, length_seq. }
      rewrite (export_inner_loop (G j) cs _ j z (slice j)).
      + simpl. rewrite <- (IH (S j)) by lia. f_equal.
        rewrite seq_S, fmap_app, <- app_assoc. simpl.
        rewrite insert_app_r_alt by lia. by rewrite Hlen, Nat.sub_diag.
      + apply list_lookup_middle. by rewrite Hlen.
      + apply Hslice. lia. }
  apply (Hgen n 0). lia.
Qed.

Lemma export_data_x s :
  consistent s → 3 ≤ channels s →
  String.eqb (current_view s) "X-Y-T" = false →
  String.eqb (current_view s) "Y-T-X" = true →
  export_data s = Ok (width s, x_slice (volume s) <$> seq 0 (width s)).
Proof.
  intros Hs Hch E1 E2. unfold export_data. rewrite E1, E2. unfold zeros4.
  rewrite (export_outer_loop (x_slice (volume s)) (index_x (volume s))); [done|].
  intros x Hx. by apply (x_slice_loop s x).
Qed.

Lemma export_data_y s :
  consistent s → 3 ≤ channels s →
  String.eqb (current_view s) "X-Y-T" = false →
  String.eqb (current_view s) "Y-T-X" = false →
  export_data s = Ok (height s, y_slice (volume s) <$> seq 0 (height s)).
Proof.
  intros Hs Hch E1 E2. unfold export_data. rewrite E1, E2. unfold zeros4.
  rewrite (export_outer_loop (y_slice (volume s)) (index_y (volume s))); [done|].
  intros y Hy. by apply (y_slice_loop s y).
Qed.

(** Reading [data[i]] for every [i] below the length gives [data] back. *)
Lemma mapM_lookup_all {A} (l : list A) :
  mapM (λ i, or_raise IndexError (l !! i)) (seq 0 (length l)) = Ok l.
Proof.
  assert (∀ m j, j + m = length l →
    mapM (λ i, or_raise IndexError (l !! i)) (seq j m) = Ok (drop j l)) as Hgen.
  { induction m as [|m IH]; intros j Hj.
    - simpl. by rewrite drop_ge by lia.
    - cbn [seq mapM].
      in_range l j x Hx.
      simpl. rewrite (IH (S j)) by lia. simpl.
      by rewrite (drop_S l x j Hx). }
  apply (Hgen (length l) 0). lia.
Qed.

(** What [export_data] returns, whatever the view: as many images as the
    animation of the view has frames, the i-th of them the slice that
    [update] shows for the frame number i. *)
Lemma export_data_slices s :
  consistent s → 3 ≤ channels s →
  ∃ data,
    export_data s = Ok (depth_range s, data) ∧
    length data = depth_range s ∧
    ∀ i, i < depth_range s →
      ∃ img, data !! i = Some img ∧ slice_data s i = Ok img.
Proof.
  intros Hs Hch. destruct (consistent_frames s Hs) as [Hl _].
  unfold depth_range, slice_data.
  destruct (String.eqb (current_view s) "X-Y-T") eqn:E1;
    [|destruct (String.eqb (current_view s) "Y-T-X") eqn:E2].
  - exists (volume s). unfold export_data. rewrite E1.
    split; [done|]. split; [done|]. intros i Hi.
    in_range (volume s) i img Himg.
    by exists img.
  - exists (x_slice (volume s) <$> seq 0 (width s)).
    split; [by apply export_data_x|].
    split; [by rewrite length_fmap, length_seq|]. intros i Hi.
    exists (x_slice (volume s) i). split.
    + by rewrite list_lookup_fmap, lookup_seq_lt.
    + by apply (x_slice_loop s i).
  - exists (y_slice (volume s) <$> seq 0 (height s)).
    split; [by apply export_data_y|].
    split; [by rewrite length_fmap, length_seq|]. intros i Hi.
    exists (y_slice (volume s) i). split.
    + by rewrite list_lookup_fmap, lookup_seq_lt.
    + by apply (y_slice_loop s i).
Qed.

Lemma duration_ok q :
  ¬ (q == 0)%Q → py_div 1000 (PFin q) ≫= py_int = Ok (Qtrunc (1000 / q)).
Proof.
  intros Hq. unfold py_div.
  destruct (Qeq_bool q 0) eqn:E; [by apply Qeq_bool_iff in E|done].
Qed.

(** The images written are the conversions of [data], in order. *)
Lemma export_frames_written s n data q :
  export_data s = Ok (n, data) → length data = n →
  fps s = PFin q → ¬ (q == 0)%Q →
  export_frames s = Ok (Qtrunc (1000 / q), map3 to_pixel <$> data).
Proof.
  intros Hdata Hlen Hfps Hq. unfold export_frames. rewrite Hdata. simpl.
  rewrite Hfps, (duration_ok q Hq). simpl.
  replace n with (length (map4 to_pixel data))
    by (unfold map4; by rewrite length_fmap).
  by rewrite mapM_lookup_all.
Qed.


(** ** The playback rate *)

Lemma py_gt_not_le x : py_gt x 1000 = true → py_le x 0 = false.
Proof.
  destruct x as [q|[]|]; simpl; try done.
  intros Hgt%Qltb_lt. apply not_true_is_false. intros Hle%Qle_bool_iff.
  apply (Qlt_irrefl 1000). eapply Qlt_le_trans; [exact Hgt|].
  eapply Qle_trans; [exact Hle|]. done.
Qed.

Lemma Qtrunc_floor q : (0 <= q)%Q → Qtrunc q = Qfloor q.
Proof.
  destruct q as [n d]. unfold Qle, Qtrunc, Qfloor. simpl. intros Hn.
  apply Z.quot_div_nonneg; lia.
Qed.

Lemma Qfloor_rate_range q : (0 <= q)%Q → (q <= 1000)%Q → (0 <= Qfloor q <= 1000)%Z.
Proof.
  intros H0 H1. split.
  - change 0%Z with (Qfloor 0). by apply Qfloor_resp_le.
  - change 1000%Z with (Qfloor 1000). by apply Qfloor_resp_le.
Qed.

Lemma py_float_py_str (n : Z) :
  (0 <= n <= 1000)%Z → py_float (py_str n) = Ok (PFin (inject_Z n)).
Proof.
  intros Hn.
  assert (forallb (λ k, match py_float (py_str (Z.of_nat k)) with
                        | Ok (PFin (Qmake a 1)) => Z.eqb a (Z.of_nat k)
                        | _ => false
                        end) (seq 0 1001) = true) as Hall by (vm_compute; reflexivity).
  rewrite forallb_forall in Hall.
  specialize (Hall (Z.to_nat n) ltac:(apply in_seq; lia)).
  rewrite Z2Nat.id in Hall by lia.
  destruct (py_float (py_str n)) as [[[a []]| |]|]; try discriminate Hall.
  apply Z.eqb_eq in Hall as ->. done.
Qed.

Lemma same_media_refl s : same_media s s.
Proof. by repeat split. Qed.

Lemma same_media_trans s1 s2 s3 :
  same_media s1 s2 → same_media s2 s3 → same_media s1 s3.
Proof.
  intros (H1 & H2 & H3 & H4) (H1' & H2' & H3' & H4').
  repeat split; congruence.
Qed.

Lemma on_submit_unfold depth s text :
  on_submit depth s text
  = update_fps_with
      (match depth with
       | 0 => λ _ _, Raise RecursionError
       | S depth' => on_submit depth'
       end) s text.
Proof. by destruct depth. Qed.

(** *** What the handler leaves alone *)

Lemma set_val_same_media g val s s' :
  (∀ s1 t s2, g s1 t = Ok s2 → same_media s1 s2) →
  set_val g val s = Ok s' → same_media s s'.
Proof.
  intros Hg. unfold set_val. destruct (String.eqb _ _).
  - intros [= <-]. apply same_media_refl.
  - intros H%Hg. apply (same_media_trans _ (set_text val s)); [|done].
    by repeat split.
Qed.

Lemma update_fps_with_same_media g s text s' :
  (∀ s1 t s2, g s1 t = Ok s2 → same_media s1 s2) →
  update_fps_with g s text = Ok s' → same_media s s'.
Proof.
  intros Hg. unfold update_fps_with.
  destruct (py_float text) as [x|[]]; try done.
  - destruct (py_le x 0); [|destruct (py_gt x 1000)].
    + destruct (set_val g "1" s) as [s1|] eqn:E; [|done].
      apply (set_val_same_media _ _ _ _ Hg) in E.
      cbn. intros [= <-]. apply (same_media_trans _ s1); [done|]. by repeat split.
    + destruct (set_val g "1000" s) as [s1|] eqn:E; [|done].
      apply (set_val_same_media _ _ _ _ Hg) in E.
      cbn. intros [= <-]. apply (same_media_trans _ s1); [done|]. by repeat split.
    + cbn [mbind result_bind]. destruct (py_div 1000 x); [|done].
      intros [= <-]. by repeat split.
  - destruct (py_int (fps s)); [|done]. cbn [mbind result_bind].
    by apply set_val_same_media.
Qed.

Lemma on_submit_same_media depth s text s' :
  on_submit depth s text = Ok s' → same_media s s'.
Proof.
  revert s text s'. induction depth as [|depth IH]; intros s text s';
    rewrite on_submit_unfold; apply update_fps_with_same_media; [done|exact IH].
Qed.

Lemma update_fps_same_media s text s' :
  update_fps_from_textbox s text = Ok s' → same_media s s'.
Proof.
  unfold update_fps_from_textbox. intros H%on_submit_same_media.
  apply (same_media_trans _ (set_text text s)); [|done]. by repeat split.
Qed.

(** *** The runs of the handler *)

Lemma update_fps_with_in_range g s text y :
  py_float text = Ok (PFin y) → (0 < y)%Q → (y <= 1000)%Q →
  update_fps_with g s text
  = Ok (restart_animation (set_fps (PFin y) (PFin (1000 / y)) s)).
Proof.
  intros Hx H0 H1. unfold update_fps_with. rewrite Hx. simpl.
  assert (Qle_bool y 0 = false) as ->.
  { apply not_true_is_false. intros H%Qle_bool_iff.
    apply (Qlt_irrefl 0). by eapply Qlt_le_trans. }
  assert (Qltb 1000 y = false) as -> by (by apply Qltb_ge).
  cbn [mbind result_bind]. unfold py_div.
  assert (Qeq_bool y 0 = false) as ->; [|done].
  apply not_true_is_false. intros H%Qeq_bool_iff.
  rewrite H in H0. by apply Qlt_irrefl in H0.
Qed.

Lemma on_submit_in_range depth s text y :
  py_float text = Ok (PFin y) → (0 < y)%Q → (y <= 1000)%Q →
  on_submit depth s text
  = Ok (restart_animation (set_fps (PFin y) (PFin (1000 / y)) s)).
Proof. intros. rewrite on_submit_unfold. by apply update_fps_with_in_range. Qed.

Lemma py_float_1 : py_float "1" = Ok (PFin 1).
Proof. vm_compute. reflexivity. Qed.

Lemma py_float_1000 : py_float "1000" = Ok (PFin 1000).
Proof. vm_compute. reflexivity. Qed.

Lemma on_submit_1 depth s :
  on_submit depth s "1" = Ok (restart_animation (set_fps (PFin 1) (PFin (1000 / 1)) s)).
Proof. by apply on_submit_in_range; [apply py_float_1|..]. Qed.

Lemma on_submit_1000 depth s :
  on_submit depth s "1000"
  = Ok (restart_animation (set_fps (PFin 1000) (PFin (1000 / 1000)) s)).
Proof. by apply on_submit_in_range; [apply py_float_1000|..]. Qed.

(** The handler depends on the nested runs through the three texts it may
    put into the box. *)
Lemma update_fps_with_ext g1 g2 s text :
  set_val g1 "1" s = set_val g2 "1" s →
  set_val g1 "1000" s = set_val g2 "1000" s →
  (∀ n, py_int (fps s) = Ok n → set_val g1 (py_str n) s = set_val g2 (py_str n) s) →
  update_fps_with g1 s text = update_fps_with g2 s text.
Proof.
  intros H1 H2 H3. unfold update_fps_with.
  destruct (py_float text) as [x|[]]; try done.
  - by rewrite H1, H2.
  - destruct (py_int (fps s)) as [n|] eqn:E; [|done]. cbn [mbind result_bind].
    by apply H3.
Qed.

Lemma set_val_1_depth d1 d2 s :
  set_val (on_submit d1) "1" s = set_val (on_submit d2) "1" s.
Proof. unfold set_val. destruct (String.eqb _ _); [done|]. by rewrite !on_submit_1. Qed.

Lemma set_val_1000_depth d1 d2 s :
  set_val (on_submit d1) "1000" s = set_val (on_submit d2) "1000" s.
Proof. unfold set_val. destruct (String.eqb _ _); [done|]. by rewrite !on_submit_1000. Qed.

(** A run on the text [str(int(self.fps))] that the box shows has no nested
    run except for "1" or "1000". *)
Lemma on_submit_shown depth s n :
  py_int (fps s) = Ok n → fps_textbox s = py_str n →
  on_submit (S depth) s (py_str n) = on_submit 1 s (py_str n).
Proof.
  intros Hn Hbox. rewrite (on_submit_unfold (S depth)), (on_submit_unfold 1).
  apply update_fps_with_ext.
  - apply set_val_1_depth.
  - apply set_val_1000_depth.
  - intros n'. rewrite Hn. intros [= <-].
    unfold set_val. by rewrite Hbox, String.eqb_refl.
Qed.

(** Two nested runs are the most that happen: more room changes nothing. *)
Lemma on_submit_depth depth s text :
  on_submit (S (S depth)) s text = on_submit 2 s text.
Proof.
  rewrite (on_submit_unfold (S (S depth))), (on_submit_unfold 2).
  apply update_fps_with_ext.
  - apply set_val_1_depth.
  - apply set_val_1000_depth.
  - intros n Hn. unfold set_val. destruct (String.eqb _ _); [done|].
    by apply on_submit_shown.
Qed.

Lemma update_fps_depth s text :
  update_fps_from_textbox s text = on_submit 2 (set_text text s) text.
Proof. apply (on_submit_depth (recursion_limit - 2)). Qed.

(** The recursion limit is never met. *)
Lemma update_fps_with_no_RecursionError g s text :
  set_val g "1" s ≠ Raise RecursionError →
  set_val g "1000" s ≠ Raise RecursionError →
  (∀ n, py_int (fps s) = Ok n → set_val g (py_str n) s ≠ Raise RecursionError) →
  update_fps_with g s text ≠ Raise RecursionError.
Proof.
  intros H1 H2 H3. unfold update_fps_with, py_float.
  destruct (float_from_string _) as [x|]; simpl.
  - destruct (py_le x 0); [|destruct (py_gt x 1000)].
    + destruct (set_val g "1" s) as [s1|e] eqn:E; simpl; [done|]. by intros [= ->].
    + destruct (set_val g "1000" s) as [s1|e] eqn:E; simpl; [done|]. by intros [= ->].
    + cbn [mbind result_bind]. destruct x as [y| |]; simpl; [|done..].
      by destruct (Qeq_bool y 0).
  - destruct (fps s) as [y|b|] eqn:E; simpl; [|done..].
    by apply H3.
Qed.

Lemma set_val_1_no_RecursionError depth s :
  set_val (on_submit depth) "1" s ≠ Raise RecursionError.
Proof. unfold set_val. destruct (String.eqb _ _); [done|]. by rewrite on_submit_1. Qed.

Lemma set_val_1000_no_RecursionError depth s :
  set_val (on_submit depth) "1000" s ≠ Raise RecursionError.
Proof. unfold set_val. destruct (String.eqb _ _); [done|]. by rewrite on_submit_1000. Qed.

Lemma update_fps_no_RecursionError s text :
  update_fps_from_textbox s text ≠ Raise RecursionError.
Proof.
  rewrite update_fps_depth, on_submit_unfold.
  apply update_fps_with_no_RecursionError.
  - apply set_val_1_no_RecursionError.
  - apply set_val_1000_no_RecursionError.
  - intros n Hn. unfold set_val. destruct (String.eqb _ _); [done|].
    rewrite on_submit_unfold. apply update_fps_with_no_RecursionError.
    + apply set_val_1_no_RecursionError.
    + apply set_val_1000_no_RecursionError.
    + intros n' Hn'. simpl fps in Hn, Hn'. rewrite Hn in Hn'.
      injection Hn' as <-.
      unfold set_val. simpl fps_textbox. by rewrite String.eqb_refl.
Qed.

(** The nested runs return: [set_val] raises nothing inside the handler. *)
Lemma nested_run_returns depth s val :
  val = "1"%string ∨ val = "1000"%string ∨
  (∃ n, py_int (fps s) = Ok n ∧ val = py_str n) →
  ∃ s', set_val (on_submit (S depth)) val s = Ok s'.
Proof.
  intros Hval. unfold set_val.
  destruct (String.eqb (fps_textbox s) val); [by eexists|].
  destruct Hval as [->|[->|(n & Hn & ->)]].
  { rewrite on_submit_1. by eexists. }
  { rewrite on_submit_1000. by eexists. }
  rewrite on_submit_unfold. unfold update_fps_with, py_float.
  destruct (float_from_string _) as [x|]; simpl.
  - destruct (py_le x 0) eqn:Hle; [|destruct (py_gt x 1000) eqn:Hgt].
    + unfold set_val. simpl fps_textbox.
      destruct (String.eqb (py_str n) "1"); [by eexists|].
      rewrite on_submit_1. by eexists.
    + unfold set_val. simpl fps_textbox.
      destruct (String.eqb (py_str n) "1000"); [by eexists|].
      rewrite on_submit_1000. by eexists.
    + cbn [mbind result_bind].
      destruct x as [y|[]|]; simpl in *; try done; [|by eexists].
      destruct (Qeq_bool y 0) eqn:E; [|by eexists].
      apply Qeq_bool_iff in E.
      assert (Qle_bool y 0 = true); [|congruence].
      apply Qle_bool_iff. rewrite E. apply Qle_refl.
  - simpl in Hn. rewrite Hn. cbn [mbind result_bind].
    unfold set_val. simpl fps_textbox. rewrite String.eqb_refl. by eexists.
Qed.

Lemma on_submit_low depth s text x :
  py_float text = Ok x → py_le x 0 = true → fps_textbox s = text →
  on_submit (S depth) s text
  = Ok (restart_animation (set_fps (PFin 1) (PFin (1000 / 1)) (set_text "1" s))).
Proof.
  intros Hx Hle Hbox. rewrite on_submit_unfold. unfold update_fps_with.
  rewrite Hx, Hle. unfold set_val. rewrite Hbox.
  destruct (String.eqb text "1") eqn:E.
  - apply String.eqb_eq in E as ->. rewrite py_float_1 in Hx.
    injection Hx as <-. discriminate Hle.
  - by rewrite on_submit_1.
Qed.

Lemma on_submit_high depth s text x :
  py_float text = Ok x → py_gt x 1000 = true → fps_textbox s = text →
  on_submit (S depth) s text
  = Ok (restart_animation
          (set_fps (PFin 1000) (PFin (1000 / 1000)) (set_text "1000" s))).
Proof.
  intros Hx Hgt Hbox. rewrite on_submit_unfold. unfold update_fps_with.
  rewrite Hx, (py_gt_not_le x Hgt), Hgt. unfold set_val. rewrite Hbox.
  destruct (String.eqb text "1000") eqn:E.
  - apply String.eqb_eq in E as ->. rewrite py_float_1000 in Hx.
    injection Hx as <-. discriminate Hgt.
  - by rewrite on_submit_1000.
Qed.

Lemma update_fps_low s text x :
  py_float text = Ok x → py_le x 0 = true →
  update_fps_from_textbox s text
  = Ok (restart_animation (set_fps (PFin 1) (PFin (1000 / 1)) (set_text "1" s))).
Proof.
  intros Hx Hle. rewrite update_fps_depth.
  by rewrite (on_submit_low 1 _ _ _ Hx Hle).
Qed.

Lemma update_fps_high s text x :
  py_float text = Ok x → py_gt x 1000 = true →
  update_fps_from_textbox s text
  = Ok (restart_animation
          (set_fps (PFin 1000) (PFin (1000 / 1000)) (set_text "1000" s))).
Proof.
  intros Hx Hgt. rewrite update_fps_depth.
  by rewrite (on_submit_high 1 _ _ _ Hx Hgt).
Qed.

Lemma update_fps_in_range s text y :
  py_float text = Ok (PFin y) → (0 < y)%Q → (y <= 1000)%Q →
  update_fps_from_textbox s text
  = Ok (restart_animation (set_fps (PFin y) (PFin (1000 / y)) (set_text text s))).
Proof. intros. unfold update_fps_from_textbox. by apply on_submit_in_range. Qed.

(** A text that is no number: the handler puts [str(int(self.fps))] into the
    box, and the box runs the handler on that text. *)
Lemma update_fps_invalid s text q :
  py_float text = Raise ValueError_float → fps s = PFin q →
  (0 <= Qtrunc q <= 1000)%Z →
  update_fps_from_textbox s text
  = Ok (restart_animation
          (set_fps (PFin (inject_Z (Z.max 1 (Qtrunc q))))
             (PFin (1000 / inject_Z (Z.max 1 (Qtrunc q))))
             (set_text (py_str (Z.max 1 (Qtrunc q))) s))).
Proof.
  intros Hx Hfps Hn. rewrite update_fps_depth, on_submit_unfold.
  unfold update_fps_with. rewrite Hx. simpl fps. rewrite Hfps.
  cbn [py_int mbind result_bind]. unfold set_val. simpl fps_textbox.
  pose proof (py_float_py_str _ Hn) as Hread.
  destruct (String.eqb text (py_str (Qtrunc q))) eqn:E.
  { apply String.eqb_eq in E. rewrite E, Hread in Hx. discriminate Hx. }
  destruct (decide (Qtrunc q = 0%Z)) as [Hz|Hz].
  - rewrite Hz. rewrite Hz in Hread.
    by rewrite (on_submit_low 0 _ _ _ Hread).
  - rewrite Z.max_r by lia.
    rewrite (on_submit_in_range 1 _ _ _ Hread); [done| |].
    + unfold Qlt. simpl. lia.
    + unfold Qle. simpl. lia.
Qed.

(** C6: whatever the rate was, submitting "0", "-5", "abc" and "2000" in
    turn leaves the rates 1, 1, 1 and 1000; a number that is at most 0 gives
    the rate 1 and a number above 1000 gives the rate 1000.  A text that is
    no number does not in general leave the rate as it was: the handler puts
    [str(int(rate))] into the box, the box submits that text, and the rate in
    (0, 1000] becomes int(rate), or 1 when int(rate) is 0, with the animation
    restarted.  The rate is retained only when it is a whole number, as the
    rate 1 before "abc" in the sequence is. *)
Theorem rate_inputs_are_clamped_or_resubmitted (s : visualizer) :
  submit_all s ["0"; "-5"; "abc"; "2000"]%string
    = Ok [PFin 1; PFin 1; PFin 1; PFin 1000] ∧
  (∀ text x, py_float text = Ok x → py_le x 0 = true →
     ∃ s', update_fps_from_textbox s text = Ok s' ∧ fps s' = PFin 1) ∧
  (∀ text x, py_float text = Ok x → py_gt x 1000 = true →
     ∃ s', update_fps_from_textbox s text = Ok s' ∧ fps s' = PFin 1000) ∧
  (∀ text q,
     is_ascii text = true → py_float text = Raise ValueError_float →
     fps s = PFin q → (0 < q)%Q → (q <= 1000)%Q →
     ∃ s', update_fps_from_textbox s text = Ok s' ∧
           fps s' = PFin (inject_Z (Z.max 1 (Qfloor q))) ∧
           fps_textbox s' = py_str (Z.max 1 (Qfloor q)) ∧
           anim s' = Some {| anim_frames := depth_range s;
                             anim_interval := interval s' |} ∧
           ((inject_Z (Z.max 1 (Qfloor q)) == q)%Q ↔ (inject_Z (Qfloor q) == q)%Q)).
Proof.
  assert (py_float "0" = Ok (PFin 0)) as H0 by (vm_compute; reflexivity).
  assert (py_float "-5" = Ok (PFin (-5))) as H5 by (vm_compute; reflexivity).
  assert (py_float "abc" = Raise ValueError_float) as Habc by (vm_compute; reflexivity).
  assert (py_float "2000" = Ok (PFin 2000)) as H2000 by (vm_compute; reflexivity).
  split; [|split; [|split]].
  - cbn [submit_all].
    rewrite (update_fps_low _ _ _ H0) by done. cbn [mbind result_bind].
    rewrite (update_fps_low _ _ _ H5) by done. cbn [mbind result_bind].
    rewrite (update_fps_invalid _ _ 1 Habc) by (done || (vm_compute; split; discriminate)).
    cbn [mbind result_bind].
    rewrite (update_fps_high _ _ _ H2000) by done. done.
  - intros text x Hx Hle. eexists. split; [by eapply update_fps_low|done].
  - intros text x Hx Hgt. eexists. split; [by eapply update_fps_high|done].
  - intros text q _ Hx Hfps Hq0 Hq1.
    pose proof (Qfloor_rate_range q (Qlt_le_weak _ _ Hq0) Hq1) as Hn.
    eexists. split.
    { apply (update_fps_invalid s text q Hx Hfps).
      by rewrite (Qtrunc_floor q (Qlt_le_weak _ _ Hq0)). }
    rewrite (Qtrunc_floor q (Qlt_le_weak _ _ Hq0)).
    split; [done|]. split; [done|]. split; [done|].
    destruct (decide (Qfloor q = 0%Z)) as [Hz|Hz].
    + rewrite Hz. simpl. split; intros H.
      * pose proof (Qfloor_le q) as Hle. pose proof (Qlt_floor q) as Hlt.
        rewrite Hz in Hlt. simpl in Hlt. rewrite <- H in Hlt.
        by apply Qlt_irrefl in Hlt.
      * rewrite <- H in Hq0. by apply Qlt_irrefl in Hq0.
    + by rewrite Z.max_r by lia.
Qed.

(** ** The export path *)

Lemma startswith_sep_app base rest :
  startswith_sep base = false → startswith_sep (base +:+ "_" +:+ rest) = false.
Proof. by destruct base. Qed.

Lemma path_join_relative a b : startswith_sep b = false → path_join a b = a +:+ "/" +:+ b.
Proof. intros Hb. unfold path_join. by rewrite Hb. Qed.

(** C7, as amended: the file is written under [exports/], and the number in
    its name is the rate with its fraction dropped (for the rates the program
    works with, which are positive, the largest integer not above the rate),
    not the nearest integer. *)
Theorem export_path_truncates_rate (s : visualizer) (q : Q) :
  fps s = PFin q → (0 <= q)%Q → startswith_sep (base_name s) = false →
  export_path s
  = Ok ("exports/" +:+ base_name s +:+ "_" +:+ py_lower (current_view s) +:+ "_"
          +:+ py_str (Qfloor q) +:+ "fps.gif") ∧
  export_button_clicked s
  = match export_frames s with
    | Ok (duration, written) =>
        Ok (inl {| gif_path := "exports/" +:+ base_name s +:+ "_"
                     +:+ py_lower (current_view s) +:+ "_"
                     +:+ py_str (Qfloor q) +:+ "fps.gif";
                   gif_duration := duration; gif_frames := written |})
    | Raise e => Ok (inr e)
    end.
Proof.
  intros Hfps Hq Hbase.
  assert (export_path s
          = Ok ("exports/" +:+ base_name s +:+ "_" +:+ py_lower (current_view s)
                  +:+ "_" +:+ py_str (Qfloor q) +:+ "fps.gif")) as Hpath.
  { unfold export_path. rewrite Hfps. simpl.
    rewrite (Qtrunc_floor q Hq), path_join_relative; [done|].
    by apply startswith_sep_app. }
  split; [done|]. unfold export_button_clicked. by rewrite Hpath.
Qed.

(** ** The small clip *)

Example ex_visualizer_init :
  init "imports/clip.mp4" ex_frames (Some (PFin 23.7)) = Ok (ex_visualizer "X-Y-T").
Proof. vm_compute. reflexivity. Qed.

Lemma ex_visualizer_consistent label : consistent (ex_visualizer label).
Proof. split; [reflexivity|]. simpl. lia. Defined.

Lemma time_depth_view_shows_frames_witness :
  consistent (ex_visualizer "X-Y-T") ∧
  depth_range (ex_visualizer "X-Y-T") = 2 ∧
  ∀ t, t < 2 →
    ∃ img, volume (ex_visualizer "X-Y-T") !! t = Some img ∧
           slice_data (ex_visualizer "X-Y-T") t = Ok img ∧
           update (ex_visualizer "X-Y-T") t
           = Ok (set_frame t (ex_visualizer "X-Y-T"), img,
                 plane_pos (set_frame t (ex_visualizer "X-Y-T")) t).
Proof.
  split; [apply ex_visualizer_consistent|].
  destruct (time_depth_view_shows_frames (ex_visualizer "X-Y-T")
              (ex_visualizer_consistent "X-Y-T") eq_refl) as (Hd & _ & Hshow & _).
  split; [exact Hd|exact Hshow].
Defined.

Lemma x_depth_view_shows_columns_witness :
  consistent (ex_visualizer "Y-T-X") ∧
  depth_range (ex_visualizer "Y-T-X") = 2 ∧
  ∃ S, slice_data (ex_visualizer "Y-T-X") 1 = Ok S ∧
       has_shape3 (2, 2, 3) S = true ∧
       ∀ t y c, t < 2 → y < 2 → c < 3 →
         ∃ q, at3 S t y c = Some q ∧
              at4 (volume (ex_visualizer "Y-T-X")) t y 1 c = Some q.
Proof.
  split; [apply ex_visualizer_consistent|].
  destruct (x_depth_view_shows_columns (ex_visualizer "Y-T-X")
              (ex_visualizer_consistent "Y-T-X") eq_refl eq_refl) as (Hd & _ & Hshow & _).
  split; [exact Hd|].
  destruct (Hshow 1 ltac:(simpl; lia)) as (S & Hslice & _ & Hshape & Hat).
  exists S. split; [exact Hslice|]. split; [exact Hshape|exact Hat].
Defined.

Lemma y_depth_view_shows_rows_witness :
  consistent (ex_visualizer "T-X-Y") ∧
  depth_range (ex_visualizer "T-X-Y") = 2 ∧
  ∃ S, slice_data (ex_visualizer "T-X-Y") 1 = Ok S ∧
       has_shape3 (2, 2, 3) S = true ∧
       ∀ t x c, t < 2 → x < 2 → c < 3 →
         ∃ q, at3 S t x c = Some q ∧
              at4 (volume (ex_visualizer "T-X-Y")) t 1 x c = Some q.
Proof.
  split; [apply ex_visualizer_consistent|].
  destruct (y_depth_view_shows_rows (ex_visualizer "T-X-Y")
              (ex_visualizer_consistent "T-X-Y") eq_refl eq_refl) as (Hd & _ & Hshow & _).
  split; [exact Hd|].
  destruct (Hshow 1 ltac:(simpl; lia)) as (S & Hslice & _ & Hshape & Hat).
  exists S. split; [exact Hslice|]. split; [exact Hshape|exact Hat].
Defined.


Lemma rate_inputs_are_clamped_or_resubmitted_witness :
  submit_all (ex_visualizer "X-Y-T") ["0"; "-5"; "abc"; "2000"]%string
    = Ok [PFin 1; PFin 1; PFin 1; PFin 1000] ∧
  (∃ s', update_fps_from_textbox (ex_visualizer "X-Y-T") "-0.5" = Ok s' ∧
         fps s' = PFin 1) ∧
  (∃ s', update_fps_from_textbox (ex_visualizer "X-Y-T") "1e4" = Ok s' ∧
         fps s' = PFin 1000) ∧
  fps (ex_visualizer "X-Y-T") = PFin 23.7 ∧
  (∃ s', update_fps_from_textbox (ex_visualizer "X-Y-T") "abc" = Ok s' ∧
         fps s' = PFin 23 ∧ fps_textbox s' = "23"%string ∧
         anim s' = Some {| anim_frames := 2; anim_interval := interval s' |}).
Proof.
  destruct (rate_inputs_are_clamped_or_resubmitted (ex_visualizer "X-Y-T"))
    as (Hseq & Hlow & Hhigh & Hbad).
  split; [exact Hseq|]. split; [|split; [|split; [reflexivity|]]].
  - apply (Hlow "-0.5"%string (PFin (-0.5)%Q)); vm_compute; reflexivity.
  - apply (Hhigh "1e4"%string (PFin 10000%Q)); vm_compute; reflexivity.
  - destruct (Hbad "abc"%string 23.7%Q) as (s' & Hrun & Hfps & Hbox & Hanim & _).
    + reflexivity.
    + vm_compute. reflexivity.
    + reflexivity.
    + reflexivity.
    + unfold Qle. simpl. lia.
    + exists s'. split; [exact Hrun|]. split; [exact Hfps|].
      split; [exact Hbox|exact Hanim].
Defined.

Lemma export_path_truncates_rate_witness :
  export_path (ex_visualizer "X-Y-T") = Ok "exports/clip_x-y-t_23fps.gif"%string.
Proof.
  destruct (export_path_truncates_rate (ex_visualizer "X-Y-T") 23.7) as [Hpath _].
  - reflexivity.
  - unfold Qle. simpl. lia.
  - reflexivity.
  - exact Hpath.
Defined.

(** C7 as stated fails: at the rate 23.7 the name carries 23, not 24. *)
Lemma export_path_does_not_round :
  fps (ex_visualizer "X-Y-T") = PFin 23.7 ∧
  export_path (ex_visualizer "X-Y-T") = Ok "exports/clip_x-y-t_23fps.gif"%string ∧
  export_path (ex_visualizer "X-Y-T") ≠ Ok "exports/clip_x-y-t_24fps.gif"%string.
Proof. split; [reflexivity|]. split; [reflexivity|]. intros H. discriminate H. Qed.

(** ** The states the program reaches *)

Lemma np_stack_Ok_inv frames st :
  np_stack frames = Ok st →
  ∃ f0 rest, frames = f0 :: rest ∧ st = frames ∧
             Forall (λ f, shape3 f = shape3 f0) rest.
Proof.
  destruct frames as [|f0 rest]; [done|]. unfold np_stack.
  destruct (forallb _ _) eqn:Hall; [|done]. intros [= <-].
  exists f0, rest. split; [done|]. split; [done|].
  apply Forall_forall. intros f Hf. apply shape_eqb_eq.
  rewrite forallb_forall in Hall. apply Hall. right. by apply list_elem_of_In.
Qed.

Lemma detect_fps_range path cap :
  (∃ q, detect_fps path cap = PFin q ∧ (0 < q)%Q ∧ (q <= 1000)%Q) ∨
  detect_fps path cap = PNaN.
Proof.
  assert (0 < 20)%Q as H20 by done.
  assert (20 <= 1000)%Q as H1000 by (unfold Qle; simpl; lia).
  unfold detect_fps. case_bool_decide; [left; by exists 20%Q|].
  destruct cap as [[q|[]|]|]; simpl; try (left; by exists 20%Q); [|by right].
  destruct (Qle_bool q 0) eqn:Hle; simpl; [left; by exists 20%Q|].
  destruct (Qltb 1000 q) eqn:Hgt; [left; by exists 20%Q|].
  left. exists q. split; [done|]. split.
  - apply Qnot_le_lt. intros Hc%Qle_bool_iff. congruence.
  - by apply Qltb_ge.
Qed.

(** [__init__] leaves a state that describes its volume, in the X-Y-T view
    and at a finite rate in (0, 1000]. *)
Lemma init_consistent path decoded cap s :
  Forall (λ f, is_image f = true) decoded →
  init path decoded cap = Ok s →
  consistent s ∧ build_volume decoded = Ok (volume s) ∧
  current_view s = "X-Y-T"%string ∧
  ∃ q, fps s = PFin q ∧ (0 < q)%Q ∧ (q <= 1000)%Q.
Proof.
  intros Himg. unfold init.
  destruct decoded as [|f0 rest]; [done|]. cbn [load_media_check mbind result_bind].
  destruct (detect_fps_range path cap) as [(q & -> & Hq0 & Hq)| ->].
  2: { cbn [py_div mbind result_bind].
       destruct (build_volume _); [|done]. cbn [mbind result_bind].
       by destruct (shape4 _) as [[[? ?] ?] ?]. }
  unfold py_div.
  destruct (Qeq_bool q 0) eqn:E.
  { apply Qeq_bool_iff in E. rewrite E in Hq0. by apply Qlt_irrefl in Hq0. }
  cbn [mbind result_bind].
  destruct (build_volume (f0 :: rest)) as [v|e] eqn:Hrun; [|done].
  cbn [mbind result_bind].
  pose proof Hrun as Hrun'. unfold build_volume in Hrun'.
  apply bind_Ok in Hrun' as (st & Hst & _).
  apply np_stack_Ok_inv in Hst as (f0' & rest' & [= <- <-] & _ & Hrest).
  destruct (build_volume_ok f0 rest Himg Hrest)
    as (v' & h & w & C & Hs & Hh & Hw & Hrun'' & Hshape & _).
  rewrite Hrun in Hrun''. injection Hrun'' as <-.
  rewrite (shape4_of_has_shape4 _ _ _ _ _ Hshape) by lia.
  cbn [py_int mbind result_bind]. intros [= <-]. simpl.
  split; [split; [done|simpl; lia]|]. split; [done|]. split; [done|]. by exists q.
Qed.

Lemma consistent_same_volume s s' :
  volume s' = volume s → time s' = time s → height s' = height s →
  width s' = width s → channels s' = channels s →
  consistent s → consistent s'.
Proof. unfold consistent. by intros -> -> -> -> ->. Qed.

(** The handlers keep the state consistent: none of them touches the volume
    or its extents. *)
Lemma handlers_keep_consistent s :
  consistent s →
  (∀ label, consistent (dimension_changed label s)) ∧
  consistent (run s) ∧
  (∀ n s' shown pos, update s n = Ok (s', shown, pos) → consistent s') ∧
  (∀ text s', update_fps_from_textbox s text = Ok s' → consistent s').
Proof.
  intros Hs. split; [|split; [|split]].
  - intros label. by apply (consistent_same_volume s).
  - by apply (consistent_same_volume s).
  - intros n s' shown pos. unfold update.
    destruct (slice_data _ _); [|done]. intros [= <- _ _].
    by apply (consistent_same_volume s).
  - intros text s' (_ & _ & Hv & [= Ht Hh Hw Hc])%update_fps_same_media.
    by apply (consistent_same_volume s).
Qed.

(** ** Base names *)

Lemma rfind_from_spec i c s found :
  (rfind_from i c s found = found ∧ c ∉ s) ∨
  (∃ k, rfind_from i c s found = Z.of_nat (i + k) ∧ c ∉ drop (S k) s).
Proof.
  revert i found. induction s as [|a s IH]; intros i found; simpl.
  - left. split; [done|]. apply not_elem_of_nil.
  - destruct (IH (S i) (if Ascii.eqb a c then Z.of_nat i else found))
      as [[Hr Hnot]|(k & Hr & Hnot)].
    + destruct (Ascii.eqb a c) eqn:Hac.
      * right. exists 0. rewrite Hr. split; [f_equal; lia|done].
      * left. split; [done|]. apply not_elem_of_cons. split; [|done].
        intros <-. by rewrite Ascii.eqb_refl in Hac.
    + right. exists (S k). rewrite Hr. split; [f_equal; lia|done].
Qed.

Lemma basename_no_sep p : "/"%char ∉ list_ascii_of_string (basename p).
Proof.
  unfold basename, rfind. rewrite list_ascii_of_string_of_list_ascii.
  destruct (rfind_from_spec 0 "/" (list_ascii_of_string p) (-1))
    as [[-> Hnot]|(k & -> & Hnot)]; [done|].
  by replace (Z.to_nat (Z.of_nat (0 + k) + 1)) with (S k) by lia.
Qed.

Lemma startswith_sep_take n (l : list ascii) :
  startswith_sep (string_of_list_ascii (take n l)) = true → "/"%char ∈ l.
Proof.
  destruct n as [|n], l as [|a l]; simpl; try done.
  destruct a as [[] [] [] [] [] [] [] []]; try done. intros _. by left.
Qed.

Lemma splitext_root_relative b :
  "/"%char ∉ list_ascii_of_string b → startswith_sep (splitext b).1 = false.
Proof.
  intros Hnot. apply not_true_is_false. intros Hsep. apply Hnot.
  assert (startswith_sep b = true → "/"%char ∈ list_ascii_of_string b) as Hb.
  { intros Hb. apply (startswith_sep_take (length (list_ascii_of_string b))).
    by rewrite take_ge, string_of_list_ascii_of_string by lia. }
  unfold splitext in Hsep.
  destruct (_ <? _)%Z; [destruct (existsb _ _)|]; simpl in Hsep; [|by apply Hb..].
  by apply startswith_sep_take in Hsep.
Qed.

(** The base name that [__init__] stores never starts with a slash, so the
    export path stays under [exports/]. *)
Lemma init_base_name path decoded cap s :
  init path decoded cap = Ok s → startswith_sep (base_name s) = false.
Proof.
  unfold init. intros Hinit.
  repeat (apply bind_Ok in Hinit as (? & _ & Hinit)).
  injection Hinit as <-. simpl.
  apply splitext_root_relative, basename_no_sep.
Qed.

(** * Further properties of the program *)

(** ** Construction of the visualizer *)

Lemma detect_fps_not_nan path cap : cap ≠ Some PNaN → detect_fps path cap ≠ PNaN.
Proof.
  intros Hcap. unfold detect_fps. case_bool_decide; [done|].
  destruct cap as [[q|b|]|]; try done.
  - by destruct (_ || _).
  - by destruct b.
Qed.

(** The state [__init__] builds from frames that are arrays of one shape. *)
Lemma init_ok (path : string) (f0 : Frame) (rest : list Frame)
    (cap : option pyfloat) :
  Forall (λ f, is_image f = true) (f0 :: rest) →
  Forall (λ f, shape3 f = shape3 f0) rest →
  cap ≠ Some PNaN →
  ∃ v h w c q,
    shape3 f0 = (h, w, c) ∧ 0 < h ∧ 0 < w ∧
    build_volume (f0 :: rest) = Ok v ∧
    has_shape4 (S (length rest), h, w, c) v = true ∧
    detect_fps path cap = PFin q ∧ (0 < q)%Q ∧ (q <= 1000)%Q ∧
    init path (f0 :: rest) cap
    = Ok {| file_path := path; fps := PFin q; interval := PFin (1000 / q);
            volume := v; time := S (length rest); height := h; width := w;
            channels := c; fps_textbox := py_str (Qtrunc q);
            current_view := "X-Y-T"; frame := 0; anim := None;
            base_name := (splitext (basename path)).1 |}.
Proof.
  intros Himg Hrest Hcap.
  destruct (build_volume_ok f0 rest Himg Hrest)
    as (v & h & w & C & Hs & Hh & Hw & Hrun & Hshape & _).
  destruct (detect_fps_range path cap) as [(q & Hq & Hq0 & Hq1)|Hnan];
    [|by apply detect_fps_not_nan in Hnan].
  assert (Qeq_bool q 0 = false) as E.
  { apply not_true_is_false. intros E%Qeq_bool_iff.
    rewrite E in Hq0. by apply Qlt_irrefl in Hq0. }
  exists v, h, w, C, q. split_and!; try done.
  unfold init. cbn [load_media_check mbind result_bind].
  rewrite Hq. unfold py_div. rewrite E. cbn [mbind result_bind].
  rewrite Hrun. cbn [mbind result_bind].
  by rewrite (shape4_of_has_shape4 _ _ _ _ _ Hshape) by lia.
Qed.

(** X1: for frames that are arrays of one shape, and a capture that does not
    report NaN, [__init__] succeeds: the extents are the number of frames and
    the shape of the first frame, the rate is finite in (0, 1000], the
    interval is 1000 / rate, the FPS box shows the rate without its
    fraction, and playback starts from frame 0 of the X-Y-T view with no
    animation yet. *)
Theorem init_succeeds (path : string) (f0 : Frame) (rest : list Frame)
    (cap : option pyfloat) :
  Forall (λ f, is_image f = true) (f0 :: rest) →
  Forall (λ f, shape3 f = shape3 f0) rest →
  cap ≠ Some PNaN →
  ∃ s q,
    init path (f0 :: rest) cap = Ok s ∧
    (time s, height s, width s, channels s)
      = (S (length rest), (shape3 f0).1.1, (shape3 f0).1.2, (shape3 f0).2) ∧
    build_volume (f0 :: rest) = Ok (volume s) ∧ consistent s ∧
    fps s = PFin q ∧ (0 < q)%Q ∧ (q <= 1000)%Q ∧
    interval s = PFin (1000 / q) ∧ fps_textbox s = py_str (Qfloor q) ∧
    current_view s = "X-Y-T"%string ∧ frame s = 0 ∧ anim s = None.
Proof.
  intros Himg Hrest Hcap.
  destruct (init_ok path f0 rest cap Himg Hrest Hcap)
    as (v & h & w & c & q & Hs & Hh & Hw & Hrun & Hshape & _ & Hq0 & Hq1 & Hinit).
  eexists _, q. split; [exact Hinit|]. rewrite Hs. simpl.
  split; [done|]. split; [done|].
  split; [split; [done|simpl; lia]|].
  split; [done|]. split; [done|]. split; [done|]. split; [done|].
  split; [|done]. f_equal. apply Qtrunc_floor. by apply Qlt_le_weak.
Qed.

Lemma init_succeeds_witness :
  ∃ s q,
    init "imports/clip.mp4" ex_frames (Some (PFin 23.7)) = Ok s ∧
    (time s, height s, width s, channels s) = (2, 2, 2, 3) ∧
    build_volume ex_frames = Ok (volume s) ∧ consistent s ∧
    fps s = PFin q ∧ (0 < q)%Q ∧ (q <= 1000)%Q ∧
    interval s = PFin (1000 / q) ∧ fps_textbox s = py_str (Qfloor q) ∧
    current_view s = "X-Y-T"%string ∧ frame s = 0 ∧ anim s = None.
Proof.
  apply (init_succeeds "imports/clip.mp4"
           [[[0; 5; 7]; [10; 5; 7]]; [[20; 5; 9]; [30; 5; 7]]]%Z
           [[[[40; 5; 7]; [10; 5; 8]]; [[20; 5; 7]; [30; 5; 7]]]]%Z
           (Some (PFin 23.7))).
  - repeat constructor.
  - repeat constructor.
  - intros H. discriminate H.
Defined.

(** X2: [__init__] raises the error of [_load_media] exactly when no frame
    was decoded, whatever the path and the capture say; no later step raises
    it. *)
Theorem init_no_frames_iff (path : string) (decoded : list Frame)
    (cap : option pyfloat) :
  init path decoded cap = Raise ValueError_no_frames ↔ decoded = [].
Proof.
  split; [|by intros ->].
  destruct decoded as [|f fs]; [done|]. intros Hinit. exfalso.
  unfold init in Hinit. cbn [load_media_check mbind result_bind] in Hinit.
  destruct (py_div 1000 (detect_fps path cap)) as [i|e] eqn:Hdiv.
  2: { unfold py_div in Hdiv.
       destruct (detect_fps path cap) as [q| |]; [destruct (Qeq_bool q 0)| |];
         simpl in Hinit; congruence. }
  cbn [mbind result_bind] in Hinit.
  destruct (build_volume (f :: fs)) as [v|e] eqn:Hrun.
  2: { simpl in Hinit. injection Hinit as ->. unfold build_volume in Hrun.
       destruct (np_stack (f :: fs)) as [st|e'] eqn:Hst; simpl in Hrun.
       - apply normalize_raises in Hrun. discriminate Hrun.
       - unfold np_stack in Hst. destruct (forallb _ _); congruence. }
  cbn [mbind result_bind] in Hinit.
  destruct (shape4 v) as [[[t h] w] C].
  by destruct (detect_fps path cap) as [q|b|].
Qed.

(** X3: the rate [__init__] detects is never zero, negative, infinite or
    above 1000: it is NaN or a finite number in (0, 1000].  For a file with
    an image extension (in any case of letters) it is 20 whatever the capture
    reports; otherwise a report in (0, 1000] is kept, and a failed capture or
    a report outside that range gives 20. *)
Theorem detected_rate_is_usable (path : string) (cap : option pyfloat) :
  ((∃ q, detect_fps path cap = PFin q ∧ (0 < q)%Q ∧ (q <= 1000)%Q) ∨
   (detect_fps path cap = PNaN ∧ cap = Some PNaN)) ∧
  (py_lower (splitext path).2 ∈ [".gif"; ".png"; ".jpg"; ".jpeg"]%string →
   detect_fps path cap = PFin 20) ∧
  (py_lower (splitext path).2 ∉ [".gif"; ".png"; ".jpg"; ".jpeg"]%string →
   (∀ q, cap = Some (PFin q) → (0 < q)%Q → (q <= 1000)%Q →
      detect_fps path cap = PFin q) ∧
   (∀ x, cap = Some x → py_le x 0 = true ∨ py_gt x 1000 = true →
      detect_fps path cap = PFin 20) ∧
   (cap = None → detect_fps path cap = PFin 20)).
Proof.
  split; [|split].
  - destruct (detect_fps_range path cap) as [H|H]; [by left|right].
    split; [done|]. unfold detect_fps in H. case_bool_decide; [done|].
    destruct cap as [[q|b|]|]; try done.
    + by destruct (_ || _).
    + by destruct b.
  - intros Himg. unfold detect_fps. by rewrite bool_decide_eq_true_2.
  - intros Himg. unfold detect_fps. rewrite bool_decide_eq_false_2 by done.
    split; [|split].
    + intros q -> Hq0 Hq1. simpl.
      replace (Qle_bool q 0) with false.
      2: { symmetry. apply not_true_is_false. intros H%Qle_bool_iff.
           by apply Qle_not_lt in H. }
      by replace (Qltb 1000 q) with false by (symmetry; by apply Qltb_ge).
    + intros x -> [Hle|Hgt]; [by rewrite Hle|].
      by rewrite Hgt, orb_true_r.
    + by intros ->.
Qed.

Lemma detected_rate_is_usable_witness :
  detect_fps "imports/loop.GIF" (Some (PFin 60)) = PFin 20 ∧
  detect_fps "imports/clip.mp4" (Some (PFin 60)) = PFin 60 ∧
  detect_fps "imports/clip.mp4" (Some (PFin 0)) = PFin 20.
Proof.
  assert (py_lower (splitext "imports/loop.GIF").2 = ".gif"%string) as Hgif
    by (vm_compute; reflexivity).
  assert (py_lower (splitext "imports/clip.mp4").2
          ∉ [".gif"; ".png"; ".jpg"; ".jpeg"]%string) as Hmp4.
  { replace (py_lower (splitext "imports/clip.mp4").2) with ".mp4"%string
      by (vm_compute; reflexivity).
    intros H. repeat (apply elem_of_cons in H as [H|H]; [discriminate H|]).
    by apply elem_of_nil in H. }
  split; [|split].
  - destruct (detected_rate_is_usable "imports/loop.GIF" (Some (PFin 60)))
      as (_ & Himage & _).
    apply Himage. rewrite Hgif. apply elem_of_cons. by left.
  - destruct (detected_rate_is_usable "imports/clip.mp4" (Some (PFin 60)))
      as (_ & _ & Hvideo).
    destruct (Hvideo Hmp4) as (Hkept & _).
    apply Hkept; [reflexivity|reflexivity|]. unfold Qle. simpl. lia.
  - destruct (detected_rate_is_usable "imports/clip.mp4" (Some (PFin 0)))
      as (_ & _ & Hvideo).
    destruct (Hvideo Hmp4) as (_ & Hdefault & _).
    apply (Hdefault (PFin 0)); [reflexivity|]. left. reflexivity.
Defined.

Lemma init_no_frames_iff_witness :
  init "imports/none.mp4" [] None = Raise ValueError_no_frames.
Proof. apply (init_no_frames_iff "imports/none.mp4" [] None). reflexivity. Defined.

(** ** The rate, once set *)



(** ** The marker position *)

(** X5: for a frame number within the depth range of the view the marker
    position lies in [0, 1]; it is 0 for the first frame number, 1 for the
    last one when the range has more than one, and 0 throughout when the
    range has one. *)
Theorem plane_pos_in_unit_interval (s : visualizer) (n : nat) :
  n < depth_range s →
  (0 <= plane_pos s n)%Q ∧ (plane_pos s n <= 1)%Q ∧
  (plane_pos s 0 == 0)%Q ∧
  (1 < depth_range s → (plane_pos s (depth_range s - 1) == 1)%Q) ∧
  (depth_range s = 1 → plane_pos s n = 0%Q).
Proof.
  intros Hn. unfold plane_pos.
  destruct (1 <? depth_range s) eqn:Hd.
  - apply Nat.ltb_lt in Hd.
    assert (0 < inject_Z (Z.of_nat (depth_range s) - 1))%Q as Hpos.
    { unfold Qlt. simpl. lia. }
    split; [|split; [|split; [|split]]].
    + apply Qle_shift_div_l; [done|]. unfold Qle. simpl. lia.
    + apply Qle_shift_div_r; [done|]. unfold Qle. simpl. lia.
    + unfold Qdiv. simpl. ring.
    + intros _. replace (Z.of_nat (depth_range s - 1)) with (Z.of_nat (depth_range s) - 1)%Z by lia.
      field. intros H0. rewrite H0 in Hpos. by apply Qlt_irrefl in Hpos.
    + lia.
  - apply Nat.ltb_ge in Hd. repeat split; try done. lia.
Qed.

Lemma plane_pos_in_unit_interval_witness :
  (0 <= plane_pos (ex_visualizer "T-X-Y") 1)%Q ∧
  (plane_pos (ex_visualizer "T-X-Y") 1 <= 1)%Q ∧
  (plane_pos (ex_visualizer "T-X-Y") 0 == 0)%Q ∧
  (1 < depth_range (ex_visualizer "T-X-Y") →
   (plane_pos (ex_visualizer "T-X-Y") (depth_range (ex_visualizer "T-X-Y") - 1) == 1)%Q) ∧
  (depth_range (ex_visualizer "T-X-Y") = 1 →
   plane_pos (ex_visualizer "T-X-Y") 1 = 0%Q).
Proof.
  apply (plane_pos_in_unit_interval (ex_visualizer "T-X-Y") 1).
  vm_compute. lia.
Defined.

(** ** Playback *)

Lemma slice_data_in_range s n :
  consistent s → 3 ≤ channels s → n < depth_range s →
  ∃ img, slice_data s n = Ok img.
Proof.
  intros Hs Hch Hn.
  destruct (export_data_slices s Hs Hch) as (data & _ & _ & Hslices).
  destruct (Hslices n Hn) as (img & _ & Himg). by exists img.
Qed.

Lemma slice_data_out_of_range s n :
  consistent s → depth_range s ≤ n → slice_data s n = Raise IndexError.
Proof.
  intros Hs. destruct (consistent_frames s Hs) as [Hl _].
  unfold depth_range, slice_data.
  destruct (String.eqb (current_view s) "X-Y-T");
    [|destruct (String.eqb (current_view s) "Y-T-X")]; intros Hn.
  - by rewrite (proj2 (lookup_ge_None (volume s) n)) by lia.
  - simpl. unfold index_x. rewrite (consistent_shape4 s Hs).
    by replace (n <? width s) with false by (symmetry; apply Nat.ltb_ge; lia).
  - simpl. unfold index_y. rewrite (consistent_shape4 s Hs).
    by replace (n <? height s) with false by (symmetry; apply Nat.ltb_ge; lia).
Qed.

Lemma radio_label_cases (label : string) :
  label ∈ radio_labels →
  label = "X-Y-T"%string ∨ label = "Y-T-X"%string ∨ label = "T-X-Y"%string.
Proof.
  unfold radio_labels. intros H.
  repeat (apply elem_of_cons in H as [H|H]; [auto|]). by apply elem_of_nil in H.
Qed.

(** X6: a click on a radio button switches view and frame number together
    and starts an animation, at the current interval, over the depth range of
    the new view.  For a consistent RGB volume every frame number of that
    animation can be drawn, slice and marker plane both, and [update] records
    it; a frame number from the depth range on raises IndexError. *)
Theorem animation_frames_are_drawable (s : visualizer) (label : string) :
  consistent s → channels s = 3 → label ∈ radio_labels →
  current_view (dimension_changed label s) = label ∧
  frame (dimension_changed label s) = 0 ∧
  anim (dimension_changed label s)
    = Some {| anim_frames := depth_range (dimension_changed label s);
              anim_interval := interval s |} ∧
  (∀ n, n < depth_range (dimension_changed label s) →
     ∃ shown surf,
       update (dimension_changed label s) n
       = Ok (set_frame n (dimension_changed label s), shown,
             plane_pos (dimension_changed label s) n) ∧
       frame (set_frame n (dimension_changed label s)) = n ∧
       marker_plane (set_frame n (dimension_changed label s)) n = Ok surf) ∧
  (∀ n, depth_range (dimension_changed label s) ≤ n →
     update (dimension_changed label s) n = Raise IndexError).
Proof.
  intros Hs Hch Hlabel.
  assert (consistent (dimension_changed label s)) as Hs'
    by by apply (consistent_same_volume s).
  split; [done|]. split; [done|]. split; [done|]. split.
  - intros n Hn.
    destruct (slice_data_in_range (dimension_changed label s) n Hs')
      as (img & Himg); [simpl; lia|done|].
    exists img. unfold update.
    change (slice_data (set_frame n (dimension_changed label s)) n)
      with (slice_data (dimension_changed label s) n).
    rewrite Himg.
    destruct (radio_label_cases label Hlabel) as [->|[->| ->]];
      eexists; (split; [done|]); (split; [done|]); reflexivity.
  - intros n Hn. unfold update.
    change (slice_data (set_frame n (dimension_changed label s)) n)
      with (slice_data (dimension_changed label s) n).
    by rewrite slice_data_out_of_range.
Qed.

Lemma animation_frames_are_drawable_witness :
  ∃ shown surf,
    update (dimension_changed "Y-T-X" (ex_visualizer "X-Y-T")) 1
    = Ok (set_frame 1 (dimension_changed "Y-T-X" (ex_visualizer "X-Y-T")), shown,
          plane_pos (dimension_changed "Y-T-X" (ex_visualizer "X-Y-T")) 1) ∧
    frame (set_frame 1 (dimension_changed "Y-T-X" (ex_visualizer "X-Y-T"))) = 1 ∧
    marker_plane (set_frame 1 (dimension_changed "Y-T-X" (ex_visualizer "X-Y-T"))) 1
    = Ok surf.
Proof.
  destruct (animation_frames_are_drawable (ex_visualizer "X-Y-T") "Y-T-X")
    as (_ & _ & _ & Hdraw & _).
  - apply ex_visualizer_consistent.
  - reflexivity.
  - apply elem_of_cons. right. apply elem_of_cons. by left.
  - apply (Hdraw 1). vm_compute. lia.
Defined.

(** X7: no handler changes the media: after a click on a radio button, the
    start of the animation, the drawing of a frame or a text submitted to the
    FPS box, the file path, the base name, the volume and its four extents
    are what they were. *)
Theorem handlers_keep_media (s : visualizer) :
  (∀ label, same_media s (dimension_changed label s)) ∧
  same_media s (run s) ∧
  (∀ n s' shown pos, update s n = Ok (s', shown, pos) → same_media s s') ∧
  (∀ text s', update_fps_from_textbox s text = Ok s' → same_media s s').
Proof.
  split; [|split; [|split]].
  - done.
  - done.
  - intros n s' shown pos. unfold update.
    destruct (slice_data _ _); [|done]. by intros [= <- _ _].
  - intros text s'. unfold update_fps_from_textbox.
    intros Hrun%on_submit_same_media.
    apply (same_media_trans _ (set_text text s)); [|done]. by repeat split.
Qed.

Lemma handlers_keep_media_witness :
  ∃ s', update_fps_from_textbox (ex_visualizer "X-Y-T") "30" = Ok s' ∧
        same_media (ex_visualizer "X-Y-T") s'.
Proof.
  destruct (handlers_keep_media (ex_visualizer "X-Y-T")) as (_ & _ & _ & Hrate).
  eexists. split; [vm_compute; reflexivity|].
  apply (Hrate "30"%string). vm_compute. reflexivity.
Defined.

(** X11: the three views show the same voxels: for a consistent RGB volume
    the value at row y, column x of the frame shown for t in the X-Y-T view
    is the value at row t, column y of the image shown for x in the Y-T-X
    view and the value at row t, column x of the image shown for y in the
    T-X-Y view, channel by channel. *)
Theorem views_show_the_same_voxels (s : visualizer) (t y x c : nat) :
  consistent s → channels s = 3 →
  t < time s → y < height s → x < width s → c < 3 →
  ∃ q F Sx Sy,
    slice_data (dimension_changed "X-Y-T" s) t = Ok F ∧
    slice_data (dimension_changed "Y-T-X" s) x = Ok Sx ∧
    slice_data (dimension_changed "T-X-Y" s) y = Ok Sy ∧
    at3 F y x c = Some q ∧ at3 Sx t y c = Some q ∧ at3 Sy t x c = Some q.
Proof.
  intros Hs Hch Ht Hy Hx Hc.
  destruct (volume_lookup s t y x c Hs Ht Hy Hx ltac:(lia))
    as (fr & row & px & q & Hfr & Hrow & Hpx & Hq & _).
  destruct (x_slice_spec s x Hs ltac:(lia) Hx) as [_ Hxs].
  destruct (y_slice_spec s y Hs ltac:(lia) Hy) as [_ Hys].
  destruct (Hxs t y c Ht Hy Hc) as (q1 & Hq1 & Hv1).
  destruct (Hys t x c Ht Hx Hc) as (q2 & Hq2 & Hv2).
  assert (at4 (volume s) t y x c = Some q) as Hv.
  { unfold at4, at3. rewrite Hfr. simpl. rewrite Hrow. simpl. by rewrite Hpx. }
  rewrite Hv in Hv1, Hv2. injection Hv1 as <-. injection Hv2 as <-.
  exists q, fr, (x_slice (volume s) x), (y_slice (volume s) y).
  split_and!; try done.
  - unfold slice_data. simpl. by rewrite Hfr.
  - unfold slice_data. simpl. apply (x_slice_loop s x); [done|lia|done].
  - unfold slice_data. simpl. apply (y_slice_loop s y); [done|lia|done].
  - unfold at3. rewrite Hrow. simpl. by rewrite Hpx.
Qed.

Lemma views_show_the_same_voxels_witness :
  ∃ q F Sx Sy,
    slice_data (dimension_changed "X-Y-T" (ex_visualizer "X-Y-T")) 1 = Ok F ∧
    slice_data (dimension_changed "Y-T-X" (ex_visualizer "X-Y-T")) 1 = Ok Sx ∧
    slice_data (dimension_changed "T-X-Y" (ex_visualizer "X-Y-T")) 0 = Ok Sy ∧
    at3 F 0 1 2 = Some q ∧ at3 Sx 1 0 2 = Some q ∧ at3 Sy 1 1 2 = Some q.
Proof.
  apply (views_show_the_same_voxels (ex_visualizer "X-Y-T") 1 0 1 2).
  - apply ex_visualizer_consistent.
  - reflexivity.
  - simpl. lia.
  - simpl. lia.
  - simpl. lia.
  - lia.
Defined.

(** ** Where the export goes *)

Lemma list_ascii_of_string_app (a b : string) :
  list_ascii_of_string (a +:+ b) = list_ascii_of_string a ++ list_ascii_of_string b.
Proof. induction a as [|c a IH]; [done|]. simpl. by rewrite IH. Qed.

Lemma splitext_root_no_sep b :
  "/"%char ∉ list_ascii_of_string b → "/"%char ∉ list_ascii_of_string (splitext b).1.
Proof.
  intros Hnot. unfold splitext.
  destruct (_ <? _)%Z; [destruct (existsb _ _)|]; simpl; try done.
  rewrite list_ascii_of_string_of_list_ascii.
  intros Hin. apply Hnot. by eapply subseteq_take.
Qed.

Lemma init_rate path decoded cap s :
  init path decoded cap = Ok s →
  base_name s = (splitext (basename path)).1 ∧ file_path s = path ∧
  ∃ q, fps s = PFin q ∧ (0 < q)%Q ∧ (q <= 1000)%Q.
Proof.
  unfold init. intros Hinit.
  apply bind_Ok in Hinit as (frames & _ & Hinit).
  apply bind_Ok in Hinit as (i & _ & Hinit).
  apply bind_Ok in Hinit as (v & _ & Hinit).
  destruct (shape4 v) as [[[t h] w] C].
  apply bind_Ok in Hinit as (n & Hn & [= <-]). simpl.
  split; [done|]. split; [done|].
  destruct (detect_fps_range path cap) as [H|H]; [done|].
  by rewrite H in Hn.
Qed.

(** The decimal text of a number from 0 to 1000 holds no slash. *)
Lemma py_str_no_sep (n : Z) :
  (0 <= n <= 1000)%Z → "/"%char ∉ list_ascii_of_string (py_str n).
Proof.
  intros Hn.
  assert (forallb (λ k, negb (existsb (Ascii.eqb "/")
                                 (list_ascii_of_string (py_str (Z.of_nat k)))))
            (seq 0 1001) = true) as Hall by (vm_compute; reflexivity).
  rewrite forallb_forall in Hall.
  specialize (Hall (Z.to_nat n)). rewrite Z2Nat.id in Hall by lia.
  intros Hin. apply list_elem_of_In in Hin.
  assert (existsb (Ascii.eqb "/") (list_ascii_of_string (py_str n)) = true) as Hex.
  { apply existsb_exists. exists "/"%char. split; [done|]. apply Ascii.eqb_refl. }
  rewrite Hex in Hall. discriminate Hall.
  apply in_seq. lia.
Qed.

Lemma export_path_in_exports s q :
  "/"%char ∉ list_ascii_of_string (base_name s) →
  current_view s ∈ radio_labels →
  fps s = PFin q → (0 <= q)%Q → (q <= 1000)%Q →
  ∃ f, export_path s = Ok ("exports/" +:+ f) ∧
       "/"%char ∉ list_ascii_of_string f.
Proof.
  intros Hbase Hview Hfps Hq0 Hq1.
  exists (base_name s +:+ "_" +:+ py_lower (current_view s) +:+ "_"
          +:+ py_str (Qfloor q) +:+ "fps.gif"). split.
  - unfold export_path. rewrite Hfps. simpl.
    rewrite (Qtrunc_floor q Hq0), path_join_relative; [done|].
    apply startswith_sep_app. destruct (base_name s) as [|a b]; [done|].
    simpl. destruct (Ascii.eqb a "/") eqn:Ha.
    + apply Ascii.eqb_eq in Ha as ->. exfalso. apply Hbase. simpl. by left.
    + destruct a as [[] [] [] [] [] [] [] []]; try done.
  - rewrite !list_ascii_of_string_app. rewrite !not_elem_of_app.
    pose proof (py_str_no_sep (Qfloor q) (Qfloor_rate_range q Hq0 Hq1)) as Hstr.
    split; [done|]. split; [by intros [= ]%list_elem_of_singleton|].
    split.
    { destruct (radio_label_cases _ Hview) as [->|[->| ->]];
        vm_compute; intros Hin; apply list_elem_of_In in Hin; simpl in Hin;
        intuition discriminate. }
    split; [by intros [= ]%list_elem_of_singleton|]. split; [done|].
    vm_compute. intros Hin. apply list_elem_of_In in Hin. simpl in Hin.
    intuition discriminate.
Qed.

(** X8: the export of a visualizer built by [__init__], in whichever of the
    three views, goes to a file directly inside [exports/]: the path is
    [exports/] followed by a file name that holds no slash, whatever path the
    media was loaded from. *)
Theorem export_stays_in_exports (path : string) (decoded : list Frame)
    (cap : option pyfloat) (s0 : visualizer) (label : string) :
  init path decoded cap = Ok s0 → label ∈ radio_labels →
  ∃ f, export_path (dimension_changed label s0) = Ok ("exports/" +:+ f) ∧
       "/"%char ∉ list_ascii_of_string f.
Proof.
  intros Hinit Hlabel.
  destruct (init_rate _ _ _ _ Hinit) as (Hbase & _ & q & Hq & Hq0 & Hq1).
  apply (export_path_in_exports (dimension_changed label s0) q); try done.
  - simpl. rewrite Hbase. apply splitext_root_no_sep, basename_no_sep.
  - by apply Qlt_le_weak.
Qed.

Lemma export_stays_in_exports_witness :
  ∃ f, export_path (dimension_changed "T-X-Y" (ex_visualizer "X-Y-T"))
       = Ok ("exports/" +:+ f) ∧
       "/"%char ∉ list_ascii_of_string f.
Proof.
  apply (export_stays_in_exports "imports/clip.mp4" ex_frames (Some (PFin 23.7))
           (ex_visualizer "X-Y-T") "T-X-Y").
  - vm_compute. reflexivity.
  - apply elem_of_cons. right. apply elem_of_cons. right. apply elem_of_cons. by left.
Defined.

(** ** What the writer receives *)

Lemma slice_data_shape s :
  consistent s → channels s = 3 →
  ∃ rows cols, ∀ n img,
    n < depth_range s → slice_data s n = Ok img →
    has_shape3 (rows, cols, 3) img = true.
Proof.
  intros Hs Hch. destruct (consistent_frames s Hs) as [Hl Hv].
  unfold depth_range, slice_data.
  destruct (String.eqb (current_view s) "X-Y-T");
    [|destruct (String.eqb (current_view s) "Y-T-X")].
  - exists (height s), (width s). intros n img Hn.
    in_range (volume s) n fr Hfr. intros [= <-].
    destruct Hs as (Hshape & _). apply has_shape4_spec in Hshape as [_ Hall].
    rewrite <- Hch. by apply (Forall_lookup_1 _ _ _ _ Hall Hfr).
  - exists (time s), (height s). intros n img Hn.
    rewrite (x_slice_loop s n) by (done || lia). intros [= <-].
    by apply x_slice_spec; [|lia|].
  - exists (time s), (width s). intros n img Hn.
    rewrite (y_slice_loop s n) by (done || lia). intros [= <-].
    by apply y_slice_spec; [|lia|].
Qed.

Lemma to_pixel_byte v : (0 <= to_pixel v <= 255)%Z.
Proof.
  unfold to_pixel, astype_uint8.
  pose proof (Z.mod_pos_bound (Qtrunc (v * 255)) 256). lia.
Qed.

Lemma duration_positive q : (0 < q)%Q → (q <= 1000)%Q → (1 <= Qtrunc (1000 / q))%Z.
Proof.
  intros Hq0 Hq1.
  assert (1 <= 1000 / q)%Q as Hle.
  { apply Qle_shift_div_l; [done|]. by rewrite Qmult_1_l. }
  rewrite Qtrunc_floor.
  - change 1%Z with (Qfloor 1). by apply Qfloor_resp_le.
  - eapply Qle_trans; [|exact Hle]. done.
Qed.

(** X9: for a consistent RGB volume and a rate in (0, 1000] for which
    1000 / rate stays in the range of binary64, a click on the export button
    does not fail: a file is written with one image per frame number of the
    view, a duration of at least one millisecond, all images of one shape
    with three channels, and every value a byte. *)
Theorem export_succeeds (s : visualizer) (q : Q) :
  consistent s → channels s = 3 →
  fps s = PFin q → (0 < q)%Q → (q <= 1000)%Q → fits_double (1000 / q) = true →
  ∃ g rows cols,
    export_button_clicked s = Ok (inl g) ∧
    length (gif_frames g) = depth_range s ∧
    (1 <= gif_duration g)%Z ∧
    Forall (λ img : array3 Z,
              has_shape3 (rows, cols, 3) img = true ∧
              Forall (λ b, 0 <= b <= 255)%Z (ravel img))
      (gif_frames g).
Proof.
  intros Hs Hch Hfps Hq0 Hq1 _.
  destruct (export_data_slices s Hs ltac:(lia)) as (data & Hdata & Hlen & Hslices).
  destruct (slice_data_shape s Hs Hch) as (rows & cols & Hshape).
  assert (¬ (q == 0)%Q) as Hq.
  { intros E. rewrite E in Hq0. by apply Qlt_irrefl in Hq0. }
  pose proof (export_frames_written s _ data q Hdata Hlen Hfps Hq) as Hframes.
  eexists _, rows, cols. split.
  { unfold export_button_clicked, export_path. rewrite Hfps, Hframes. done. }
  simpl. split; [by rewrite length_fmap|]. split; [by apply duration_positive|].
  apply Forall_fmap, Forall_lookup. intros i img Hi. simpl.
  assert (i < depth_range s) as Hrange.
  { rewrite <- Hlen. by eapply lookup_lt_Some. }
  destruct (Hslices i Hrange) as (img' & Himg' & Hslice).
  rewrite Hi in Himg'. injection Himg' as <-. split.
  - change (map3 to_pixel img) with (map2 (fmap (M := list) to_pixel) img).
    rewrite has_shape3_map3 by (intros; apply length_fmap).
    by apply (Hshape i).
  - rewrite ravel_map3. apply Forall_fmap, Forall_forall.
    intros v _. apply to_pixel_byte.
Qed.

Lemma export_succeeds_witness :
  ∃ g rows cols,
    export_button_clicked (ex_visualizer "T-X-Y") = Ok (inl g) ∧
    length (gif_frames g) = depth_range (ex_visualizer "T-X-Y") ∧
    (1 <= gif_duration g)%Z ∧
    Forall (λ img : array3 Z,
              has_shape3 (rows, cols, 3) img = true ∧
              Forall (λ b, 0 <= b <= 255)%Z (ravel img))
      (gif_frames g).
Proof.
  apply (export_succeeds (ex_visualizer "T-X-Y") 23.7).
  - apply ex_visualizer_consistent.
  - reflexivity.
  - reflexivity.
  - reflexivity.
  - unfold Qle. simpl. lia.
  - vm_compute. reflexivity.
Defined.

(** ** The range of the normalised values *)

(** X10: after construction every value of a channel whose source is not
    constant lies between 0 and 1. *)
Theorem normalized_values_in_unit_interval (f0 : Frame) (rest : list Frame) :
  Forall (λ f, is_image f = true) (f0 :: rest) →
  Forall (λ f, shape3 f = shape3 f0) rest →
  ∃ v, build_volume (f0 :: rest) = Ok v ∧
    ∀ c mn mx, c < (shape3 f0).2 →
      amin (ravel (get_channel c (astype_float (f0 :: rest)))) = Ok mn →
      amax (ravel (get_channel c (astype_float (f0 :: rest)))) = Ok mx →
      (mn < mx)%Q →
      Forall (λ x, 0 <= x ∧ x <= 1)%Q (ravel (get_channel c v)).
Proof.
  intros Himg Hrest.
  destruct (build_volume_ok f0 rest Himg Hrest)
    as (v & h & w & C & Hs & _ & _ & Hrun & _ & Hnorm).
  exists v. split; [done|]. intros c mn mx Hc Hmn Hmx Hlt.
  rewrite Hs in Hc. simpl in Hc.
  destruct (Hnorm c Hc) as (mn' & mx' & Hmn' & Hmx' & ->).
  rewrite Hmn in Hmn'. rewrite Hmx in Hmx'.
  injection Hmn' as <-. injection Hmx' as <-.
  rewrite (proj2 (Qltb_lt mn mx) Hlt), ravel_map3.
  destruct (amin_spec _ _ Hmn) as [_ Hge], (amax_spec _ _ Hmx) as [_ Hle].
  apply Forall_fmap, Forall_forall. intros x Hx. simpl.
  rewrite Forall_forall in Hge, Hle. split.
  - rewrite <- (rescale_min mn mx). apply rescale_mono; [done|]. by apply Hge.
  - rewrite <- (rescale_max mn mx Hlt). apply rescale_mono; [done|]. by apply Hle.
Qed.

Lemma normalized_values_in_unit_interval_witness :
  ∃ v, build_volume ex_frames = Ok v ∧
    ∀ c mn mx, c < 3 →
      amin (ravel (get_channel c (astype_float ex_frames))) = Ok mn →
      amax (ravel (get_channel c (astype_float ex_frames))) = Ok mx →
      (mn < mx)%Q →
      Forall (λ x, 0 <= x ∧ x <= 1)%Q (ravel (get_channel c v)).
Proof.
  apply (normalized_values_in_unit_interval
           [[[0; 5; 7]; [10; 5; 7]]; [[20; 5; 9]; [30; 5; 7]]]
           [[[[40; 5; 7]; [10; 5; 8]]; [[20; 5; 7]; [30; 5; 7]]]])%Z.
  - repeat constructor.
  - repeat constructor.
Defined.

(** ** The marker plane *)

Lemma length_split_on sep cur s :
  length (split_on sep cur s) = S (length (filter (λ a, a = sep) s)).
Proof.
  revert cur. induction s as [|a s IH]; intros cur; simpl; [done|].
  destruct (Ascii.eqb a sep) eqn:Ha.
  - apply Ascii.eqb_eq in Ha as ->. rewrite filter_cons_True by done.
    simpl. by rewrite IH.
  - rewrite filter_cons_False; [apply IH|].
    intros ->. by rewrite Ascii.eqb_refl in Ha.
Qed.

(** X12: the marker plane is drawn across the axis that the view sweeps.  In
    the X-Y-T view it is the plane z = position, and the z axis is labelled
    with the number of frames; in the Y-T-X view it is x = position, the x
    axis labelled with the width; in the T-X-Y view it is y = position, the y
    axis labelled with the height; the other two coordinates run over the
    corners of the unit square.  A view label with fewer than two dashes has
    no third part, and the marker step raises IndexError. *)
Theorem marker_plane_follows_depth_axis (s : visualizer) (n : nat) :
  (current_view s = "X-Y-T"%string →
     marker_plane s n
     = Ok {| surf_X := [[0; 1]; [0; 1]]%Q; surf_Y := [[0; 0]; [1; 1]]%Q;
             surf_Z := [[plane_pos s n; plane_pos s n];
                        [plane_pos s n; plane_pos s n]] |} ∧
     zticklabels (setup_3d_axes s) = ["0"; py_str (Z.of_nat (depth_range s))]%string) ∧
  (current_view s = "Y-T-X"%string →
     marker_plane s n
     = Ok {| surf_X := [[plane_pos s n; plane_pos s n];
                        [plane_pos s n; plane_pos s n]];
             surf_Y := [[0; 1]; [0; 1]]%Q; surf_Z := [[0; 0]; [1; 1]]%Q |} ∧
     xticklabels (setup_3d_axes s) = ["0"; py_str (Z.of_nat (depth_range s))]%string) ∧
  (current_view s = "T-X-Y"%string →
     marker_plane s n
     = Ok {| surf_X := [[0; 1]; [0; 1]]%Q;
             surf_Y := [[plane_pos s n; plane_pos s n];
                        [plane_pos s n; plane_pos s n]];
             surf_Z := [[0; 0]; [1; 1]]%Q |} ∧
     yticklabels (setup_3d_axes s) = ["0"; py_str (Z.of_nat (depth_range s))]%string) ∧
  (length (filter (λ a, a = "-"%char) (list_ascii_of_string (current_view s))) < 2 →
     marker_plane s n = Raise IndexError).
Proof.
  split; [|split; [|split]].
  - intros Hview. unfold marker_plane, depth_range. by rewrite Hview.
  - intros Hview. unfold marker_plane, depth_range. by rewrite Hview.
  - intros Hview. unfold marker_plane, depth_range. by rewrite Hview.
  - intros Hdash. unfold marker_plane, py_split.
    rewrite (proj2 (lookup_ge_None _ 2)); [done|].
    rewrite length_split_on. lia.
Qed.

Lemma marker_plane_follows_depth_axis_witness :
  marker_plane (ex_visualizer "Y-T-X") 1
  = Ok {| surf_X := [[1; 1]; [1; 1]]%Q;
          surf_Y := [[0; 1]; [0; 1]]%Q; surf_Z := [[0; 0]; [1; 1]]%Q |} ∧
  xticklabels (setup_3d_axes (ex_visualizer "Y-T-X")) = ["0"; "2"]%string ∧
  marker_plane (ex_visualizer "XY-T") 1 = Raise IndexError.
Proof.
  destruct (marker_plane_follows_depth_axis (ex_visualizer "Y-T-X") 1)
    as (_ & Hx & _).
  destruct (marker_plane_follows_depth_axis (ex_visualizer "XY-T") 1)
    as (_ & _ & _ & Hbad).
  destruct (Hx eq_refl) as [Hplane Hticks].
  split; [exact Hplane|]. split; [exact Hticks|].
  apply Hbad. vm_compute. lia.
Defined.

(** ** The text of the FPS box *)

(** X13: the FPS box shows the rate without its fraction, and that text reads
    back: for a rate in (0, 1000], showing [str(int(rate))] and submitting
    it sets the rate to int(rate), or to 1 when int(rate) is 0. *)
Theorem resubmitting_shown_rate (s : visualizer) (q : Q) :
  fps s = PFin q → (0 < q)%Q → (q <= 1000)%Q →
  py_float (py_str (Qfloor q)) = Ok (PFin (inject_Z (Qfloor q))) ∧
  ∃ s', update_fps_from_textbox s (py_str (Qfloor q)) = Ok s' ∧
        fps s' = PFin (inject_Z (Z.max 1 (Qfloor q))).
Proof.
  intros Hfps Hq0 Hq1.
  pose proof (Qfloor_rate_range q (Qlt_le_weak _ _ Hq0) Hq1) as Hn.
  pose proof (py_float_py_str _ Hn) as Hread. split; [done|].
  destruct (decide (Qfloor q = 0%Z)) as [E|E].
  - eexists. split.
    + eapply update_fps_low; [exact Hread|]. by rewrite E.
    + by rewrite E.
  - assert (1 <= Qfloor q)%Z as H1 by lia.
    eexists. split.
    + apply (update_fps_in_range _ _ _ Hread).
      * unfold Qlt. simpl. lia.
      * unfold Qle. simpl. lia.
    + simpl. by rewrite Z.max_r by lia.
Qed.

Lemma resubmitting_shown_rate_witness :
  py_float (py_str (Qfloor 23.7)) = Ok (PFin (inject_Z (Qfloor 23.7))) ∧
  ∃ s', update_fps_from_textbox (ex_visualizer "X-Y-T") (py_str (Qfloor 23.7)) = Ok s' ∧
        fps s' = PFin (inject_Z (Z.max 1 (Qfloor 23.7))).
Proof.
  apply (resubmitting_shown_rate (ex_visualizer "X-Y-T") 23.7).
  - reflexivity.
  - reflexivity.
  - unfold Qle. simpl. lia.
Defined.

(** ** The entry point *)

Lemma rfind_from_ge i c s found :
  rfind_from i c s found = found ∨ (Z.of_nat i <= rfind_from i c s found)%Z.
Proof.
  destruct (rfind_from_spec i c s found) as [[-> _]|(k & -> & _)]; [by left|].
  right. lia.
Qed.

(** The last occurrence does not depend on where the count starts. *)
Lemma rfind_from_shift i c s found :
  rfind_from i c s found
  = if decide (rfind c s = -1)%Z then found else (Z.of_nat i + rfind c s)%Z.
Proof.
  unfold rfind. revert i found. induction s as [|a s IH]; intros i found; simpl.
  - done.
  - rewrite (IH (S i)), (IH 1).
    destruct (rfind_from_ge 0 c s (-1)) as [Hr|Hr];
      destruct (Ascii.eqb a c); repeat case_decide; lia.
Qed.

Lemma rfind_from_app i c l1 l2 found :
  rfind_from i c (l1 ++ l2) found
  = rfind_from (i + length l1) c l2 (rfind_from i c l1 found).
Proof.
  revert i found. induction l1 as [|a l1 IH]; intros i found; simpl.
  - by rewrite Nat.add_0_r.
  - rewrite IH. f_equal. lia.
Qed.

Lemma basename_under_imports input : basename ("imports/" +:+ input) = basename input.
Proof.
  unfold basename. f_equal.
  rewrite list_ascii_of_string_app.
  unfold rfind at 1. rewrite rfind_from_app.
  change (rfind_from 0 "/" (list_ascii_of_string "imports/") (-1)) with 7%Z.
  change (0 + length (list_ascii_of_string "imports/")) with 8.
  rewrite rfind_from_shift.
  destruct (rfind_from_ge 0 "/" (list_ascii_of_string input) (-1)) as [Hr|Hr];
    fold (rfind "/" (list_ascii_of_string input)) in Hr.
  - rewrite Hr, decide_True by done. by rewrite drop_app_length'.
  - rewrite decide_False by lia.
    replace (Z.to_nat (Z.of_nat 8 + rfind "/" (list_ascii_of_string input) + 1))
      with (length (list_ascii_of_string "imports/")
            + Z.to_nat (rfind "/" (list_ascii_of_string input) + 1))
      by (simpl; lia).
    by rewrite drop_app_add'.
Qed.

(** X14: for frames that are arrays of one shape, and a capture that does
    not report NaN, [main] loads the file of the typed name from [imports/]
    and starts the X-Y-T animation over all frames at the interval of the
    rate.  The base name used for export names is the last component of the
    typed name without its extension: the [imports/] prefix and any
    directory in the typed name leave it alone. *)
Theorem main_plays_named_file (input : string) (f0 : Frame) (rest : list Frame)
    (cap : option pyfloat) :
  Forall (λ f, is_image f = true) (f0 :: rest) →
  Forall (λ f, shape3 f = shape3 f0) rest →
  cap ≠ Some PNaN →
  ∃ s, main input (f0 :: rest) cap = Ok s ∧
       file_path s = "imports/" +:+ input ∧
       base_name s = (splitext (basename input)).1 ∧
       current_view s = "X-Y-T"%string ∧ frame s = 0 ∧
       anim s = Some {| anim_frames := S (length rest);
                        anim_interval := interval s |}.
Proof.
  intros Himg Hrest Hcap.
  destruct (init_ok ("imports/" +:+ input) f0 rest cap Himg Hrest Hcap)
    as (v & h & w & c & q & _ & _ & _ & _ & _ & _ & _ & _ & Hinit).
  eexists. unfold main. rewrite Hinit. cbn [mbind result_bind].
  split; [done|]. simpl. by rewrite basename_under_imports.
Qed.

Lemma main_plays_named_file_witness :
  ∃ s, main "clips/loop.v2.gif" ex_frames None = Ok s ∧
       file_path s = "imports/clips/loop.v2.gif"%string ∧
       base_name s = (splitext (basename "clips/loop.v2.gif")).1 ∧
       current_view s = "X-Y-T"%string ∧ frame s = 0 ∧
       anim s = Some {| anim_frames := 2; anim_interval := interval s |}.
Proof.
  apply (main_plays_named_file "clips/loop.v2.gif"
           [[[0; 5; 7]; [10; 5; 7]]; [[20; 5; 9]; [30; 5; 7]]]%Z
           [[[[40; 5; 7]; [10; 5; 8]]; [[20; 5; 7]; [30; 5; 7]]]]%Z None).
  - repeat constructor.
  - repeat constructor.
  - intros H. discriminate H.
Defined.

(** ** Channels are normalised one by one *)

Lemma normalized_from_functional src dst1 dst2 :
  normalized_from src dst1 → normalized_from src dst2 → dst1 = dst2.
Proof.
  intros (mn1 & mx1 & Hmn1 & Hmx1 & ->) (mn2 & mx2 & Hmn2 & Hmx2 & ->).
  rewrite Hmn1 in Hmn2. rewrite Hmx1 in Hmx2.
  injection Hmn2 as <-. by injection Hmx2 as <-.
Qed.

(** X15: a channel of the volume depends on that channel of the frames
    alone: two clips whose frames agree on channel c give volumes that agree
    on channel c, whatever their other channels hold. *)
Theorem channels_are_normalized_independently
    (f0 g0 : Frame) (rest rest' : list Frame) (c : nat) :
  Forall (λ f, is_image f = true) (f0 :: rest) →
  Forall (λ f, shape3 f = shape3 f0) rest →
  Forall (λ f, is_image f = true) (g0 :: rest') →
  Forall (λ f, shape3 f = shape3 g0) rest' →
  c < (shape3 f0).2 → c < (shape3 g0).2 →
  get_channel c (astype_float (f0 :: rest)) = get_channel c (astype_float (g0 :: rest')) →
  ∃ v v', build_volume (f0 :: rest) = Ok v ∧ build_volume (g0 :: rest') = Ok v' ∧
          get_channel c v = get_channel c v'.
Proof.
  intros Himg Hrest Himg' Hrest' Hc Hc' Hsame.
  destruct (build_volume_ok f0 rest Himg Hrest)
    as (v & h & w & C & Hs & _ & _ & Hrun & _ & Hnorm).
  destruct (build_volume_ok g0 rest' Himg' Hrest')
    as (v' & h' & w' & C' & Hs' & _ & _ & Hrun' & _ & Hnorm').
  exists v, v'. split; [done|]. split; [done|].
  rewrite Hs in Hc. rewrite Hs' in Hc'. simpl in Hc, Hc'.
  apply (normalized_from_functional (get_channel c (astype_float (f0 :: rest)))).
  - by apply Hnorm.
  - rewrite Hsame. by apply Hnorm'.
Qed.

Lemma channels_are_normalized_independently_witness :
  ∃ v v',
    build_volume ex_frames = Ok v ∧
    build_volume [ [[ [0; 1; 2]; [10; 3; 4] ]; [ [20; 5; 6]; [30; 7; 8] ]];
                   [[ [40; 9; 0]; [10; 0; 0] ]; [ [20; 0; 0]; [30; 0; 0] ]] ]%Z = Ok v' ∧
    get_channel 0 v = get_channel 0 v'.
Proof.
  apply (channels_are_normalized_independently
           [[[0; 5; 7]; [10; 5; 7]]; [[20; 5; 9]; [30; 5; 7]]]%Z
           [[ [0; 1; 2]; [10; 3; 4] ]; [ [20; 5; 6]; [30; 7; 8] ]]%Z
           [[[[40; 5; 7]; [10; 5; 8]]; [[20; 5; 7]; [30; 5; 7]]]]%Z
           [[[ [40; 9; 0]; [10; 0; 0] ]; [ [20; 0; 0]; [30; 0; 0] ]]]%Z 0).
  - repeat constructor.
  - repeat constructor.
  - repeat constructor.
  - repeat constructor.
  - simpl. lia.
  - simpl. lia.
  - reflexivity.
Defined.

Lemma at3_map3 {A B} (g : A → B) (a : array3 A) i j k :
  at3 (map3 g a) i j k = g <$> at3 a i j k.
Proof.
  unfold at3, map3, map2. rewrite list_lookup_fmap.
  destruct (a !! i) as [row|]; [|done]. simpl. rewrite list_lookup_fmap.
  destruct (row !! j) as [px|]; [|done]. simpl. by rewrite list_lookup_fmap.
Qed.

(** X16: normalisation keeps the order of the values of a channel: where one
    voxel is at most another in the stacked frames, it is at most the other
    in the volume. *)
Theorem normalization_is_monotone (f0 : Frame) (rest : list Frame)
    (c t y x t' y' x' : nat) (a b : Q) :
  Forall (λ f, is_image f = true) (f0 :: rest) →
  Forall (λ f, shape3 f = shape3 f0) rest →
  c < (shape3 f0).2 →
  at3 (get_channel c (astype_float (f0 :: rest))) t y x = Some a →
  at3 (get_channel c (astype_float (f0 :: rest))) t' y' x' = Some b →
  (a <= b)%Q →
  ∃ v a' b', build_volume (f0 :: rest) = Ok v ∧
             at3 (get_channel c v) t y x = Some a' ∧
             at3 (get_channel c v) t' y' x' = Some b' ∧ (a' <= b')%Q.
Proof.
  intros Himg Hrest Hc Ha Hb Hab.
  destruct (build_volume_ok f0 rest Himg Hrest)
    as (v & h & w & C & Hs & _ & _ & Hrun & _ & Hnorm).
  rewrite Hs in Hc. simpl in Hc.
  destruct (Hnorm c Hc) as (mn & mx & Hmn & Hmx & Hdst).
  exists v. rewrite Hdst. destruct (Qltb mn mx) eqn:Hlt.
  - exists (rescale mn mx a), (rescale mn mx b). split; [done|].
    rewrite !at3_map3, Ha, Hb. split; [done|]. split; [done|].
    apply rescale_mono; [by apply Qltb_lt|done].
  - by exists a, b.
Qed.

Lemma normalization_is_monotone_witness :
  ∃ v a' b', build_volume ex_frames = Ok v ∧
             at3 (get_channel 0 v) 0 0 1 = Some a' ∧
             at3 (get_channel 0 v) 1 0 0 = Some b' ∧ (a' <= b')%Q.
Proof.
  apply (normalization_is_monotone
           [[[0; 5; 7]; [10; 5; 7]]; [[20; 5; 9]; [30; 5; 7]]]%Z
           [[[[40; 5; 7]; [10; 5; 8]]; [[20; 5; 7]; [30; 5; 7]]]]%Z
           0 0 0 1 1 0 0 10 40).
  - repeat constructor.
  - repeat constructor.
  - simpl. lia.
  - reflexivity.
  - reflexivity.
  - unfold Qle. simpl. lia.
Defined.
